(** * Typed-record persistence engine of [collection/db.py]

    A shallow embedding of the metadata registry, the memoised existence
    check, the write path [DB.insert_or_update] and the read path [DB.get],
    together with the properties of the engine that the specification
    states. *)

From Stdlib Require Import ZArith NArith Ascii String List Bool Lia.
From stdpp Require Import base option list gmap strings.

Open Scope Z_scope.
Open Scope string_scope.

(** ** Python values and types *)

(** The classes that occur as field annotations in [collection/schema.py]:
    the scalar classes and [NamedTuple] classes, the latter with their
    [__name__] and their [_field_types] in declaration order. *)
#[warnings="-register-all"]
Inductive pytype : Type :=
  | TNoneType
  | TInt
  | TStr
  | TDate
  | TDatetime
  | TNamedTuple (name : string) (field_types : list (string * pytype)).

(** Field values.  A date is its proleptic ordinal, a datetime its ordinal
    and the microseconds since midnight.  [PTuple ty vs] is an instance of
    the NamedTuple class [ty] holding the values [vs]. *)
#[warnings="-register-all"]
Inductive pyval : Type :=
  | PNone
  | PInt (z : Z)
  | PStr (s : string)
  | PDate (ordinal : Z)
  | PDatetime (ordinal : Z) (micros : Z)
  | PTuple (ty : pytype) (vs : list pyval).

(** The exceptions that the engine raises or lets through.  [StoreError]
    stands for the [sqlite3.Error] family raised by [conn.execute]. *)
Inductive pyexn : Type :=
  | ValueError
  | TypeError
  | AttributeError
  | KeyError
  | NameError
  | UnboundLocalError
  | StoreError (msg : string).

(** Outcome of a call: a returned value or a raised exception. *)
Inductive outcome (A : Type) : Type :=
  | Ret (a : A)
  | Raise (e : pyexn).
Arguments Ret {A} a.
Arguments Raise {A} e.

Definition is_ret {A} (o : outcome A) : bool :=
  match o with Ret _ => true | Raise _ => false end.

(** [type_.__name__] *)
Definition type_name (ty : pytype) : string :=
  match ty with
  | TNoneType => "NoneType"
  | TInt => "int"
  | TStr => "str"
  | TDate => "date"
  | TDatetime => "datetime"
  | TNamedTuple n _ => n
  end.

(** [type_._fields]; the attribute is absent on the scalar classes. *)
Definition _fields (ty : pytype) : option (list string) :=
  match ty with
  | TNamedTuple _ fts => Some (map fst fts)
  | _ => None
  end.

(** [type_._field_types] *)
Definition _field_types (ty : pytype) : option (list (string * pytype)) :=
  match ty with
  | TNamedTuple _ fts => Some fts
  | _ => None
  end.

(** [type(value)] *)
Definition type_of (v : pyval) : pytype :=
  match v with
  | PNone => TNoneType
  | PInt _ => TInt
  | PStr _ => TStr
  | PDate _ => TDate
  | PDatetime _ _ => TDatetime
  | PTuple ty _ => ty
  end.

(** [isinstance(v, tuple)] *)
Definition is_tuple (v : pyval) : bool :=
  match v with PTuple _ _ => true | _ => false end.

(** [issubclass(t, tuple)] *)
Definition is_tuple_type (ty : pytype) : bool :=
  match ty with TNamedTuple _ _ => true | _ => false end.

(** [v is None] *)
Definition is_none (v : pyval) : bool :=
  match v with PNone => true | _ => false end.

(** Python's [==] on the values above.  NamedTuple instances compare as
    plain tuples, element by element, whatever their class. *)
Fixpoint py_eqb (a b : pyval) {struct a} : bool :=
  match a, b with
  | PNone, PNone => true
  | PInt x, PInt y => Z.eqb x y
  | PStr s, PStr t => String.eqb s t
  | PDate x, PDate y => Z.eqb x y
  | PDatetime x u, PDatetime y w => Z.eqb x y && Z.eqb u w
  | PTuple _ xs, PTuple _ ys =>
      (fix all2 (xs ys : list pyval) {struct xs} : bool :=
         match xs, ys with
         | [], [] => true
         | x :: xs', y :: ys' => py_eqb x y && all2 xs' ys'
         | _, _ => false
         end) xs ys
  | _, _ => false
  end.

(** ** Table names: [_table_name] *)

Definition is_upper (c : ascii) : bool :=
  let n := nat_of_ascii c in (65 <=? n)%nat && (n <=? 90)%nat.

Definition is_lower (c : ascii) : bool :=
  let n := nat_of_ascii c in (97 <=? n)%nat && (n <=? 122)%nat.

(** [str.lower] on one character of [A-Za-z]. *)
Definition lower_ascii (c : ascii) : ascii :=
  if is_upper c then ascii_of_nat (nat_of_ascii c + 32) else c.

Fixpoint string_rev_app (w : list ascii) (acc : string) : string :=
  match w with
  | [] => acc
  | c :: w' => string_rev_app w' (String c acc)
  end.

(** A finished candidate [w] (kept reversed) is a match of
    [[A-Z][a-z]+] when at least one lower-case letter follows the capital. *)
Definition flush_word (cur : option (list ascii)) : list string :=
  match cur with
  | Some (c1 :: c2 :: w) => [string_rev_app (c1 :: c2 :: w) EmptyString]
  | _ => []
  end.

(** [re.findall('[A-Z][a-z]+', s)], scanning left to right.  [cur] is the
    match in progress: a capital and the lower-case letters read after it. *)
Fixpoint findall_words (cur : option (list ascii)) (s : string) : list string :=
  match s with
  | EmptyString => flush_word cur
  | String c rest =>
      match cur with
      | Some w =>
          if is_lower c then findall_words (Some (c :: w)) rest
          else (flush_word cur ++
               findall_words (if is_upper c then Some [c] else None) rest)%list
      | None =>
          findall_words (if is_upper c then Some [c] else None) rest
      end
  end.

Fixpoint str_lower (s : string) : string :=
  match s with
  | EmptyString => EmptyString
  | String c rest => String (lower_ascii c) (str_lower rest)
  end.

(** ['_'.join(map(str.lower, re.findall('[A-Z][a-z]+', typename)))] *)
Definition _table_name (ty : pytype) : string :=
  String.concat "_" (map str_lower (findall_words None (type_name ty))).

Definition table_name (value : pyval) : string := _table_name (type_of value).

(** ** The metadata registry *)

(** [InsertMode] is an [IntFlag]: a bit set, combined with [|]. *)
Definition InsertMode := Z.
Definition InsertIfNewPKElseUpdate : InsertMode := 1.
Definition InsertIfNewAltPKElseUpdate : InsertMode := 2.
Definition InsertIfNewPKElseIgnore : InsertMode := 4.
Definition InsertIfNewAltPKElseIgnore : InsertMode := 8.
Definition InsertIfNoPK : InsertMode := 16.

(** The module-level dictionaries.  A class is identified by its
    [__name__]; the classes of one schema have distinct names. *)
Record Registry : Type := {
  INSERT_MODES : gmap string InsertMode;
  PK_NAMES : gmap string string;
  FK_NAMES : gmap string (gset string);
  ALT_PK_NAMES : gmap string (gset string)
}.

Definition empty_registry : Registry :=
  {| INSERT_MODES := ∅; PK_NAMES := ∅; FK_NAMES := ∅; ALT_PK_NAMES := ∅ |}.

Definition str_in (x : string) (l : list string) : bool :=
  existsb (String.eqb x) l.

(** [register_insert_mode(mode)(type_)] *)
Definition register_insert_mode (mode : InsertMode) (ty : pytype)
    (reg : Registry) : Registry :=
  {| INSERT_MODES := <[type_name ty := mode]> (INSERT_MODES reg);
     PK_NAMES := PK_NAMES reg;
     FK_NAMES := FK_NAMES reg;
     ALT_PK_NAMES := ALT_PK_NAMES reg |}.

(** [register_pk_name(pkname)(type_)] *)
Definition register_pk_name (pkname : string) (ty : pytype)
    (reg : Registry) : outcome Registry :=
  match _fields ty with
  | None => Raise AttributeError
  | Some fs =>
      if negb (str_in pkname fs) then Raise NameError
      else Ret {| INSERT_MODES := INSERT_MODES reg;
                  PK_NAMES := <[type_name ty := pkname]> (PK_NAMES reg);
                  FK_NAMES := FK_NAMES reg;
                  ALT_PK_NAMES := ALT_PK_NAMES reg |}
  end.

(** The decorator [register_fk_names], applied to the class [type_]. *)
Definition register_fk_names (fknames : list string) (ty : pytype)
    (reg : Registry) : outcome Registry :=
  match _fields ty with
  | None => Raise AttributeError
  | Some fs =>
      if negb (forallb (fun fk => str_in fk fs) fknames) then Raise NameError
      else Ret {| INSERT_MODES := INSERT_MODES reg;
                  PK_NAMES := PK_NAMES reg;
                  FK_NAMES := <[type_name ty :=
                                  list_to_set (map (fun n => n ++ "_id") fknames)]>
                                (FK_NAMES reg);
                  ALT_PK_NAMES := ALT_PK_NAMES reg |}
  end.

Definition lookup_field_type (fts : list (string * pytype)) (n : string)
    : option pytype :=
  snd <$> find (fun ft => String.eqb (fst ft) n) fts.

(** The decorator [register_alt_pk_names], applied to the class [type_]. *)
Definition register_alt_pk_names (names : list string) (ty : pytype)
    (reg : Registry) : outcome Registry :=
  match ty with
  | TNamedTuple _ fts =>
      if negb (forallb (fun n => str_in n (map fst fts)) names) then Raise NameError
      else
        let col n :=
          match lookup_field_type fts n with
          | Some t => if is_tuple_type t then n ++ "_id" else n
          | None => n
          end in
        Ret {| INSERT_MODES := INSERT_MODES reg;
               PK_NAMES := PK_NAMES reg;
               FK_NAMES := FK_NAMES reg;
               ALT_PK_NAMES := <[type_name ty := list_to_set (map col names)]>
                                 (ALT_PK_NAMES reg) |}
  | _ => Raise AttributeError
  end.

(** [_insert_mode].  The [return] sits inside the [if mode is None] branch:
    a class with a registered mode falls off the end of the function, which
    in Python returns [None]. *)
Definition _insert_mode (reg : Registry) (ty : pytype) : option InsertMode :=
  match INSERT_MODES reg !! type_name ty with
  | None =>
      Some (Z.lor (Z.lor InsertIfNewPKElseUpdate InsertIfNewAltPKElseUpdate)
                  InsertIfNoPK)
  | Some _ => None
  end.

Definition insert_mode (reg : Registry) (value : pyval) : option InsertMode :=
  _insert_mode reg (type_of value).

(** [_primary_key_name]; [None] when the class has no simple primary key. *)
Definition _primary_key_name (reg : Registry) (ty : pytype)
    : outcome (option string) :=
  match PK_NAMES reg !! type_name ty with
  | Some pkname => Ret (Some pkname)
  | None =>
      let pkname := _table_name ty ++ "_id" in
      match _fields ty with
      | None => Raise AttributeError
      | Some fs => if negb (str_in pkname fs) then Ret None else Ret (Some pkname)
      end
  end.

Definition primary_key_name (reg : Registry) (value : pyval)
    : outcome (option string) :=
  _primary_key_name reg (type_of value).

(** [_foreign_key_names].  The default reads [type._field_types], an
    attribute of the builtin [type], not of the argument [type_]: that
    attribute does not exist, so the default raises [AttributeError]. *)
Definition _foreign_key_names (reg : Registry) (ty : pytype)
    : outcome (gset string) :=
  match FK_NAMES reg !! type_name ty with
  | Some fknames => Ret fknames
  | None => Raise AttributeError
  end.

Definition foreign_key_names (reg : Registry) (value : pyval)
    : outcome (gset string) :=
  _foreign_key_names reg (type_of value).

(** ** The store connection *)

(** The statements that the engine sends to [conn.execute].  The SQL text
    is built from format strings; a statement is kept here by the values
    substituted into its format string, and [sql_text] gives the text. *)
Inductive statement : Type :=
  | SqlInsert (tablename : string) (columns : list string)
  | SqlUpdate (tablename : string) (columns : list string) (pkname : string)
  | SqlSelectKey (pkname tablename : string)
  | SqlSelectRow (fields : list string) (tablename : string) (pkname : option string)
  | SqlPragmaForeignKeys.

(** ["%s" % x] for an optional string: [None] prints as [None]. *)
Definition fmt_opt (o : option string) : string :=
  match o with Some s => s | None => "None" end.

Definition sql_text (st : statement) : string :=
  match st with
  | SqlInsert t cols =>
      "INSERT INTO " ++ t ++ "(" ++ String.concat ", " cols ++ ") VALUES ("
        ++ String.concat ", " (map (fun _ => "?") cols) ++ ")"
  | SqlUpdate t cols pk =>
      "UPDATE " ++ t ++ " SET " ++ String.concat ", " (map (fun c => c ++ " = ?") cols)
        ++ " WHERE " ++ pk ++ " = ?"
  | SqlSelectKey pk t =>
      "SELECT " ++ pk ++ " FROM " ++ t ++ " WHERE " ++ pk ++ " = ?"
  | SqlSelectRow fs t pk =>
      "SELECT (" ++ String.concat ", " fs ++ ") FROM " ++ t ++ " WHERE "
        ++ fmt_opt pk ++ " = ?"
  | SqlPragmaForeignKeys => "PRAGMA foreign_keys = ON"
  end.

(** What the engine reads from the cursor returned by [conn.execute]. *)
Record cursor : Type := {
  lastrowid : pyval;
  description : list string;
  fetchone : option (list pyval)
}.

(** The relational store is a collaborator of the engine: any state type
    with an [execute] that answers a statement and its parameters with a
    cursor or an error. *)
Class Connection (S : Type) : Type :=
  execute : S -> statement -> list pyval -> outcome cursor * S.

(** ** Bounded memoisation: [functools.lru_cache] *)

Section Lru.
Context {K V : Type} (keq : K -> K -> bool).

(** Entries in order of use, the most recently used first. *)
Definition lru : Type := list (K * V).

(** The entry of [k], with the cache from which it has been taken out. *)
Fixpoint lru_take (k : K) (c : lru) : option (V * lru) :=
  match c with
  | [] => None
  | (k', v) :: c' =>
      if keq k k' then Some (v, c')
      else match lru_take k c' with
           | Some (w, r) => Some (w, (k', v) :: r)
           | None => None
           end
  end.

(** A hit makes the entry the most recently used one. *)
Definition lru_hit (k : K) (c : lru) : option (V * lru) :=
  match lru_take k c with
  | Some (v, r) => Some (v, (k, v) :: r)
  | None => None
  end.

(** A miss stores the computed value; in a full cache the new entry
    takes the place of the least recently used one. *)
Definition lru_store (maxsize : N) (k : K) (v : V) (c : lru) : lru :=
  if (maxsize =? 0)%N then c
  else if (maxsize <=? N.of_nat (length c))%N then (k, v) :: removelast c
  else (k, v) :: c.
End Lru.

(** ** The engine state *)

Section Engine.
Context {S : Type} `{Connection S}.

(** Key of the memoised [_contains]: its arguments
    [(tablename, pkname, pkvalue)]. *)
Definition ckey : Type := string * string * pyval.

Definition ckey_eqb (a b : ckey) : bool :=
  match a, b with
  | (t1, p1, v1), (t2, p2, v2) => String.eqb t1 t2 && String.eqb p1 p2 && py_eqb v1 v2
  end.

(** A [DB] object with the memo table of its [_contains].  [journal]
    records, oldest first, the statements passed to [conn.execute]; the
    engine never reads it. *)
Record DB : Type := {
  readonly : bool;
  conn : S;
  contains_cache : list (ckey * bool);
  journal : list (statement * list pyval)
}.

Definition M (A : Type) : Type := DB -> outcome A * DB.

Definition ret {A} (a : A) : M A := fun db => (Ret a, db).
Definition raise {A} (e : pyexn) : M A := fun db => (Raise e, db).
Definition bind {A B} (m : M A) (k : A -> M B) : M B :=
  fun db =>
    match m db with
    | (Ret a, db') => k a db'
    | (Raise e, db') => (Raise e, db')
    end.
Definition lift {A} (o : outcome A) : M A := fun db => (o, db).

#[local] Notation "x <~ m ;; k" := (bind m (fun x => k))
  (at level 100, m at next level, right associativity).

(** [self.conn.execute(stmt, params)] *)
Definition conn_execute (st : statement) (params : list pyval) : M cursor :=
  fun db =>
    let '(r, s') := execute (conn db) st params in
    (r, {| readonly := readonly db;
           conn := s';
           contains_cache := contains_cache db;
           journal := (journal db ++ [(st, params)])%list |}).

(** [DB.__init__] on a connection object: the flag is stored, and a
    read-only instance sends the foreign-key pragma.  The memo table of
    [_contains] has no entry for a new instance. *)
Definition DB_init (c : S) (ro : bool) : outcome DB :=
  if ro then
    match execute c SqlPragmaForeignKeys [] with
    | (Ret _, c') =>
        Ret {| readonly := true; conn := c'; contains_cache := [];
               journal := [(SqlPragmaForeignKeys, [])] |}
    | (Raise e, _) => Raise e
    end
  else Ret {| readonly := false; conn := c; contains_cache := []; journal := [] |}.

(** ** The existence check: [DB._contains] *)

Definition CONTAINS_MAXSIZE : N := 1000000.

(** The decorated function: one [SELECT] on the key column. *)
Definition _contains_query (tablename pkname : string) (pkvalue : pyval) : M bool :=
  cur <~ conn_execute (SqlSelectKey pkname tablename) [pkvalue] ;;
  ret (bool_decide (is_Some (fetchone cur))).

Definition set_cache (c : list (ckey * bool)) (db : DB) : DB :=
  {| readonly := readonly db; conn := conn db;
     contains_cache := c; journal := journal db |}.

(** [_contains] under [lru_cache(1_000_000)]: a remembered answer is
    returned without running the query; a computed answer is remembered;
    a query that raises leaves the memo table as it was. *)
Definition _contains (tablename pkname : string) (pkvalue : pyval) : M bool :=
  fun db =>
    let k := (tablename, pkname, pkvalue) in
    match lru_hit ckey_eqb k (contains_cache db) with
    | Some (b, c') => (Ret b, set_cache c' db)
    | None =>
        match _contains_query tablename pkname pkvalue db with
        | (Ret b, db') =>
            (Ret b, set_cache (lru_store CONTAINS_MAXSIZE k b (contains_cache db')) db')
        | (Raise e, db') => (Raise e, db')
        end
    end.

(** ** The write path: [DB.insert_or_update] *)

Variable reg : Registry.

(** [c == pkname]; a missing primary key name ([None]) equals no column. *)
Definition is_pk (pkname : option string) (c : string) : bool :=
  match pkname with
  | Some pk => String.eqb c pk
  | None => false
  end.

(** The first loop, over [zip(type_._fields, value)]: the primary-key
    field is skipped, a nested tuple is a dependency, anything else is a
    column with its value. *)
Definition scalar_items (pkname : option string) (items : list (string * pyval))
    : list (string * pyval) :=
  List.filter (fun cv => negb (is_pk pkname (fst cv)) && negb (is_tuple (snd cv))) items.

Definition dependency_items (pkname : option string) (items : list (string * pyval))
    : list (string * pyval) :=
  List.filter (fun cv => negb (is_pk pkname (fst cv)) && is_tuple (snd cv)) items.

(** [getattr(value, name)] on a NamedTuple instance. *)
Definition getattr (fields : list string) (vs : list pyval) (name : string)
    : option pyval :=
  snd <$> find (fun cv => String.eqb (fst cv) name) (zip fields vs).

(** State of the local [update] after the existence decision, with the
    columns and values that the decision appended: [None] is the unbound
    local (no branch assigned it). *)
Definition decide_update (tablename pk : string) (pkvalue : pyval)
    (check_if_pk_not_null : bool) : M (option bool * list string * list pyval) :=
  if negb (is_none pkvalue) && check_if_pk_not_null then
    update <~ _contains tablename pk pkvalue ;;
    ret (Some update, [], [])
  else if negb (is_none pkvalue) then ret (Some false, [pk], [pkvalue])
  else ret (None, [], []).

(** The statement issued at the end, and the returned key. *)
Definition issue_statement (tablename pk : string) (pkvalue : pyval)
    (update : option bool) (insert_columns : list string)
    (insert_values : list pyval) : M pyval :=
  match update with
  | None => raise UnboundLocalError
  | Some true =>
      _ <~ conn_execute (SqlUpdate tablename insert_columns pk)
                        (insert_values ++ [pkvalue])%list ;;
      ret pkvalue
  | Some false =>
      cur <~ conn_execute (SqlInsert tablename insert_columns) insert_values ;;
      ret (lastrowid cur)
  end.

Fixpoint insert_or_update (value : pyval) (check_if_pk_not_null : bool)
    {struct value} : M pyval :=
  fun db =>
    if readonly db then (Raise ValueError, db)
    else
      let tablename := table_name value in
      match primary_key_name reg value with
      | Raise e => (Raise e, db)
      | Ret pkname =>
          match value with
          | PTuple type_ vs =>
              match _fields type_ with
              | None => (Raise AttributeError, db)
              | Some fields =>
                  let items := zip fields vs in
                  match pkname with
                  | None => (Raise TypeError, db)
                  | Some pk =>
                      match getattr fields vs pk with
                      | None => (Raise AttributeError, db)
                      | Some pkvalue =>
                          (d <~ decide_update tablename pk pkvalue check_if_pk_not_null ;;
                           let '(update, pk_columns, pk_values) := d in
                           insert_dependency_pks <~
                             (fix persist_dependencies (cs : list string) (ws : list pyval)
                                  {struct ws} : M (list pyval) :=
                                match cs, ws with
                                | c :: cs', w :: ws' =>
                                    if negb (is_pk pkname c) && is_tuple w then
                                      inserted_pk <~ insert_or_update w check_if_pk_not_null ;;
                                      rest <~ persist_dependencies cs' ws' ;;
                                      ret (inserted_pk :: rest)
                                    else persist_dependencies cs' ws'
                                | _, _ => ret []
                                end) fields vs ;;
                           let insert_columns :=
                             (map fst (scalar_items pkname items) ++ pk_columns
                              ++ map (fun c => c +:+ "_id")
                                     (map fst (dependency_items pkname items)))%list in
                           let insert_values :=
                             (map snd (scalar_items pkname items) ++ pk_values
                              ++ insert_dependency_pks)%list in
                           issue_statement tablename pk pkvalue update
                                           insert_columns insert_values) db
                      end
                  end
              end
          | _ => (Raise AttributeError, db)
          end
      end.

(** The second loop as it is written in the source: the dependencies
    collected by the first loop are persisted in order. *)
Fixpoint persist_all (check_if_pk_not_null : bool) (deps : list pyval)
    : M (list pyval) :=
  match deps with
  | [] => ret []
  | subvalue :: deps' =>
      inserted_pk <~ insert_or_update subvalue check_if_pk_not_null ;;
      rest <~ persist_all check_if_pk_not_null deps' ;;
      ret (inserted_pk :: rest)
  end.

(** The same loop walking the fields and the values of the record. *)
Section Dependencies.
Variable pkname : option string.
Variable check_if_pk_not_null : bool.

Fixpoint persist_dependencies (cs : list string) (ws : list pyval) {struct ws}
    : M (list pyval) :=
  match cs, ws with
  | c :: cs', w :: ws' =>
      if negb (is_pk pkname c) && is_tuple w then
        inserted_pk <~ insert_or_update w check_if_pk_not_null ;;
        rest <~ persist_dependencies cs' ws' ;;
        ret (inserted_pk :: rest)
      else persist_dependencies cs' ws'
  | _, _ => ret []
  end.
End Dependencies.

(** The body of [insert_or_update] for a NamedTuple instance whose class
    has the primary key [pk], once the read-only test has passed. *)
Definition persist_record (tablename pk : string) (pkvalue : pyval)
    (fields : list string) (vs : list pyval) (check_if_pk_not_null : bool)
    : M pyval :=
  let items := zip fields vs in
  d <~ decide_update tablename pk pkvalue check_if_pk_not_null ;;
  let '(update, pk_columns, pk_values) := d in
  insert_dependency_pks <~
    persist_dependencies (Some pk) check_if_pk_not_null fields vs ;;
  issue_statement tablename pk pkvalue update
    (map fst (scalar_items (Some pk) items) ++ pk_columns
     ++ map (fun c => c +:+ "_id") (map fst (dependency_items (Some pk) items)))%list
    (map snd (scalar_items (Some pk) items) ++ pk_values
     ++ insert_dependency_pks)%list.

(** Existence checks that follow one another on one table. *)
Fixpoint contains_each (tablename pkname : string) (keys : list Z) : M unit :=
  match keys with
  | [] => ret tt
  | k :: keys' =>
      _ <~ _contains tablename pkname (PInt k) ;;
      contains_each tablename pkname keys'
  end.

(** A change made to the store behind the engine's back. *)
Definition out_of_band (g : S -> S) (db : DB) : DB :=
  {| readonly := readonly db; conn := g (conn db);
     contains_cache := contains_cache db; journal := journal db |}.

(** Later existence checks, each preceded by some change to the store
    made out of band. *)
Fixpoint later_checks (calls : list ((S -> S) * ckey)) (db : DB) : DB :=
  match calls with
  | [] => db
  | (g, (t, p, v)) :: calls' =>
      later_checks calls' (snd (_contains t p v (out_of_band g db)))
  end.

(** ** The read path: [DB.get] *)

(** [datetime.date.fromisoformat] and [datetime.datetime.fromisoformat] of
    Python's standard library, on a [str] argument. *)
Variable date_fromisoformat : string -> outcome pyval.
Variable datetime_fromisoformat : string -> outcome pyval.

(** [isinstance(value, type_)]; a [datetime] is also a [date]. *)
Definition isinstance (v : pyval) (ty : pytype) : bool :=
  match v, ty with
  | PNone, TNoneType => true
  | PInt _, TInt => true
  | PStr _, TStr => true
  | PDate _, TDate => true
  | PDatetime _ _, TDate => true
  | PDatetime _ _, TDatetime => true
  | PTuple t _, TNamedTuple n _ => String.eqb (type_name t) n
  | _, _ => false
  end.

(** [SQL_CONVERTERS.get(type_)]; both parsers reject a non-[str]. *)
Definition SQL_CONVERTERS (ty : pytype) : option (pyval -> outcome pyval) :=
  let on_str (parse : string -> outcome pyval) (v : pyval) :=
    match v with PStr s => parse s | _ => Raise TypeError end in
  match ty with
  | TDatetime => Some (on_str datetime_fromisoformat)
  | TDate => Some (on_str date_fromisoformat)
  | _ => None
  end.

Definition convert_sql_result_value (value : pyval) (ty : pytype) : outcome pyval :=
  if isinstance value ty then Ret value
  else match SQL_CONVERTERS ty with
       | None => Ret value
       | Some conv => conv value
       end.

(** [n[:-3] if n.endswith("_id") else n] *)
Fixpoint strip_id (n : string) : string :=
  match n with
  | EmptyString => EmptyString
  | String c rest =>
      if String.eqb n "_id" then EmptyString else String c (strip_id rest)
  end.

(** The call of the class with [kwargs] as its keyword arguments, for a
    class without field defaults: every field
    must be given and no other name may be.  A later assignment to a
    name replaces an earlier one; [kwargs] holds the latest first. *)
Definition construct (type_ : pytype) (kwargs : list (string * pyval))
    : outcome pyval :=
  match _fields type_ with
  | None => Raise TypeError
  | Some fields =>
      if forallb (fun kv => str_in (fst kv) fields) kwargs then
        match mapM (fun f => snd <$> find (fun kv => String.eqb (fst kv) f) kwargs) fields with
        | Some vs => Ret (PTuple type_ vs)
        | None => Raise TypeError
        end
      else Raise TypeError
  end.

Fixpoint get (type_ : pytype) (pkvalue : pyval) {struct type_}
    : M (option pyval) :=
  let tablename := _table_name type_ in
  pkname <~ lift (_primary_key_name reg type_) ;;
  match type_ with
  | TNamedTuple _ field_types =>
      cur <~ conn_execute (SqlSelectRow (map fst field_types) tablename pkname)
                          [pkvalue] ;;
      match fetchone cur with
      | None => ret None
      | Some row =>
          fknames <~ lift (_foreign_key_names reg type_) ;;
          (** [self.get(type_._field_types[fieldname], val)] *)
          let get_field :=
            (fix lookup (fts : list (string * pytype)) (fieldname : string)
                 {struct fts} : option (pyval -> M (option pyval)) :=
               match fts with
               | [] => None
               | ft :: fts' =>
                   if String.eqb (fst ft) fieldname then Some (get (snd ft))
                   else lookup fts' fieldname
               end) field_types in
          kwargs <~
            (fix fill (cols : list (string * pyval)) (kwargs : list (string * pyval))
                 {struct cols} : M (list (string * pyval)) :=
               match cols with
               | [] => ret kwargs
               | (n, val) :: cols' =>
                   if bool_decide (n ∈ fknames) then
                     match get_field (strip_id n) with
                     | None => raise KeyError
                     | Some get_nested =>
                         r <~ get_nested val ;;
                         fill cols' ((n, default PNone r) :: kwargs)
                     end
                   else
                     match lookup_field_type field_types n with
                     | None => raise KeyError
                     | Some ty =>
                         v <~ lift (convert_sql_result_value val ty) ;;
                         fill cols' ((n, v) :: kwargs)
                     end
               end) (zip (description cur) row) [] ;;
          r <~ lift (construct type_ kwargs) ;;
          ret (Some r)
      end
  | _ => raise AttributeError
  end.

End Engine.

Arguments DB S : clear implicits.
Arguments M S A : clear implicits.

(** ** An in-memory store *)

(** A relational store that keeps its tables in memory, after SQLite: each
    row has an integer rowid, which a table's INTEGER PRIMARY KEY column
    aliases; an insert that leaves that column out (or binds NULL to it) is
    given the next rowid.  The schema script applied by [init_schema] is
    not part of the repository: a store is built here from the declaration
    of its tables. *)
Module MemStore.

Record row : Type := {
  rowid : Z;
  cells : list (string * pyval)
}.

Record table : Type := {
  pk_column : option string;
  columns : list string;
  rows : list row
}.

Definition t : Type := gmap string table.

Definition cell (r : row) (c : string) : pyval :=
  default PNone (snd <$> find (fun cv => String.eqb (fst cv) c) (cells r)).

(** [column = ?] in a [WHERE] clause: NULL equals nothing. *)
Definition sql_eqb (a b : pyval) : bool :=
  negb (is_none a) && negb (is_none b) && py_eqb a b.

Definition next_rowid (rs : list row) : Z :=
  fold_right Z.max 0 (map rowid rs) + 1.

Definition has_rowid (rs : list row) (k : Z) : bool :=
  existsb (fun r => Z.eqb (rowid r) k) rs.

Definition bound_value (cols : list string) (params : list pyval) (c : string)
    : option pyval :=
  snd <$> find (fun cv => String.eqb (fst cv) c) (zip cols params).

Definition is_pk_column (tb : table) (c : string) : bool :=
  match pk_column tb with Some pk => String.eqb pk c | None => false end.

Definition no_cursor : cursor :=
  {| lastrowid := PNone; description := []; fetchone := None |}.

Definition fail (s : t) (msg : string) : outcome cursor * t :=
  (Raise (StoreError msg), s).

(** Checks common to the statements that bind values to columns. *)
Definition bind_error (tb : table) (cols : list string) (params : list pyval)
    (nparams : nat) : option string :=
  if bool_decide (length params ≠ nparams) then Some "Incorrect number of bindings supplied"
  else if existsb is_tuple params then Some "Error binding parameter"
  else if negb (forallb (fun c => str_in c (columns tb)) cols) then Some "no such column"
  else None.

Definition insert (s : t) (tn : string) (cols : list string) (params : list pyval)
    : outcome cursor * t :=
  match s !! tn with
  | None => fail s "no such table"
  | Some tb =>
      match cols with
      | [] => fail s "syntax error"
      | _ =>
          match bind_error tb cols params (length cols) with
          | Some msg => fail s msg
          | None =>
              let given :=
                match pk_column tb with
                | Some pk => default PNone (bound_value cols params pk)
                | None => PNone
                end in
              let store_row (k : Z) :=
                let r := {| rowid := k;
                            cells := map (fun c =>
                              (c, if is_pk_column tb c then PInt k
                                  else default PNone (bound_value cols params c)))
                              (columns tb) |} in
                (Ret {| lastrowid := PInt k; description := []; fetchone := None |},
                 <[tn := {| pk_column := pk_column tb; columns := columns tb;
                            rows := (rows tb ++ [r])%list |}]> s) in
              match given with
              | PNone => store_row (next_rowid (rows tb))
              | PInt k =>
                  if has_rowid (rows tb) k then fail s "UNIQUE constraint failed"
                  else store_row k
              | _ => fail s "datatype mismatch"
              end
          end
      end
  end.

Definition assign (tb : table) (cols : list string) (params : list pyval) (r : row)
    : row :=
  let value c old := default old (bound_value cols params c) in
  {| rowid := match pk_column tb with
              | Some pk => match value pk (PInt (rowid r)) with
                           | PInt k => k
                           | _ => rowid r
                           end
              | None => rowid r
              end;
     cells := map (fun cv => (fst cv, value (fst cv) (snd cv))) (cells r) |}.

Fixpoint distinct (ks : list Z) : bool :=
  match ks with
  | [] => true
  | k :: ks' => negb (existsb (Z.eqb k) ks') && distinct ks'
  end.

Definition update (s : t) (tn : string) (cols : list string) (pk : string)
    (params : list pyval) : outcome cursor * t :=
  match s !! tn with
  | None => fail s "no such table"
  | Some tb =>
      match cols with
      | [] => fail s "syntax error"
      | _ =>
          match bind_error tb (pk :: cols) params (S (length cols)) with
          | Some msg => fail s msg
          | None =>
              let key := default PNone (last params) in
              let rs := map (fun r => if sql_eqb (cell r pk) key
                                      then assign tb cols params r else r) (rows tb) in
              if distinct (map rowid rs) then
                (Ret no_cursor,
                 <[tn := {| pk_column := pk_column tb; columns := columns tb;
                            rows := rs |}]> s)
              else fail s "UNIQUE constraint failed"
          end
      end
  end.

(** [SELECT select_list FROM tn WHERE pk = ?] for a list of columns. *)
Definition select (s : t) (tn : string) (cols : list string) (pk : string)
    (params : list pyval) : outcome cursor * t :=
  match s !! tn with
  | None => fail s "no such table"
  | Some tb =>
      match bind_error tb (pk :: cols) params 1 with
      | Some msg => fail s msg
      | None =>
          let key := default PNone (head params) in
          (Ret {| lastrowid := PNone;
                  description := cols;
                  fetchone := (fun r => map (cell r) cols)
                              <$> find (fun r => sql_eqb (cell r pk) key) (rows tb) |},
           s)
      end
  end.

(** The engine's row query puts its select list in parentheses, which
    makes it a row value: SQLite accepts that in a result column only
    when it has a single element. *)
Definition run (s : t) (st : statement) (params : list pyval) : outcome cursor * t :=
  match st with
  | SqlInsert tn cols => insert s tn cols params
  | SqlUpdate tn cols pk => update s tn cols pk params
  | SqlSelectKey pk tn => select s tn [pk] pk params
  | SqlSelectRow fields tn pkname =>
      match fields with
      | [] => fail s "syntax error"
      | [f] => select s tn [f] (fmt_opt pkname) params
      | _ => fail s "row value misused"
      end
  | SqlPragmaForeignKeys => (Ret no_cursor, s)
  end.

#[global] Instance connection : Connection t := run.

Definition create_table (pk : option string) (cols : list string) : table :=
  {| pk_column := pk; columns := cols; rows := [] |}.

End MemStore.

(** ** The record classes of [collection/schema.py] used in the examples *)

Definition Country : pytype :=
  TNamedTuple "Country" [("country_id", TInt); ("country_name", TStr)].

Definition University : pytype :=
  TNamedTuple "University"
    [("university_id", TInt); ("university_name", TStr); ("country", Country)].

Definition WebSource : pytype :=
  TNamedTuple "WebSource" [("web_source_id", TInt); ("base_url", TStr)].

(** The registrations made by the decorators on these classes. *)
Definition schema_registry : Registry :=
  let r0 := register_insert_mode InsertIfNewAltPKElseIgnore Country empty_registry in
  let reg_alt names ty r :=
    match register_alt_pk_names names ty r with Ret r' => r' | Raise _ => r end in
  let r1 := reg_alt ["country_name"] Country r0 in
  let r2 := register_insert_mode InsertIfNewAltPKElseIgnore University
              (reg_alt ["university_name"; "country"] University r1) in
  register_insert_mode InsertIfNewAltPKElseIgnore WebSource
    (reg_alt ["base_url"] WebSource r2).

Definition schema_store : MemStore.t :=
  {[ "country" := MemStore.create_table (Some "country_id") ["country_id"; "country_name"];
     "university" := MemStore.create_table (Some "university_id")
                       ["university_id"; "university_name"; "country_id"];
     "web_source" := MemStore.create_table (Some "web_source_id") ["web_source_id"; "base_url"] ]}.

(** The writable [DB] object that [DB(conn)] constructs. *)
Definition open_db {S} (s : S) : DB S :=
  {| readonly := false; conn := s; contains_cache := []; journal := [] |}.

(** The object that [DB(conn, readonly=True)] constructs on the in-memory
    store. *)
Definition readonly_db : DB MemStore.t :=
  {| readonly := true; conn := schema_store; contains_cache := [];
     journal := [(SqlPragmaForeignKeys, [])] |}.

(** A registry with other insert modes and alternate keys, the primary
    and foreign key names being kept. *)
Definition with_policy (modes : gmap string InsertMode)
    (alts : gmap string (gset string)) (reg : Registry) : Registry :=
  {| INSERT_MODES := modes; PK_NAMES := PK_NAMES reg;
     FK_NAMES := FK_NAMES reg; ALT_PK_NAMES := alts |}.

(** Whether a call of [get] has returned a record. *)
Definition returns_record (o : outcome (option pyval)) : bool :=
  match o with
  | Ret (Some _) => true
  | _ => false
  end.

(** A parser for runs in which no date column is read. *)
Definition reject_iso (s : string) : outcome pyval := Raise ValueError.

(** *** Example records and stores *)

Definition fresh_db : DB MemStore.t := open_db schema_store.

Definition france_unset : pyval := PTuple Country [PNone; PStr "France"].
Definition france_7 : pyval := PTuple Country [PInt 7; PStr "France"].

(** The store in which the row [(3, 'France')] of [country] exists. *)
Definition store_with_france : MemStore.t :=
  snd (MemStore.insert schema_store "country" ["country_id"; "country_name"]
         [PInt 3; PStr "France"]).

Definition web_source_1 : pyval :=
  PTuple WebSource [PInt 1; PStr "genealogy.math.ndsu.nodak.edu"].

Definition mit_unset_country : pyval :=
  PTuple University [PInt 1; PStr "MIT"; PTuple Country [PNone; PStr "US"]].

Definition mit_in_us : pyval :=
  PTuple University [PInt 1; PStr "MIT"; PTuple Country [PInt 3; PStr "US"]].

(** A class without a primary-key field, registered with [InsertIfNoPK]. *)
Definition Note : pytype := TNamedTuple "Note" [("text", TStr)].

Definition note_registry : Registry :=
  register_insert_mode InsertIfNoPK Note schema_registry.

Definition note_store : MemStore.t :=
  <["note" := MemStore.create_table None ["text"]]> schema_store.

Definition a_note : pyval := PTuple Note [PStr "see also"].

(** The integer keys [lo], [lo + 1], ... , [n] of them. *)
Fixpoint keys_from (lo : Z) (n : nat) : list Z :=
  match n with
  | O => []
  | Datatypes.S n' => lo :: keys_from (lo + 1) n'
  end.

(** The key of the existence check on [country] and its memo entry for an
    absent row. *)
Definition country_key (z : Z) : ckey := ("country", "country_id", PInt z).
Definition absent_entry (z : Z) : ckey * bool := (country_key z, false).

(** The number of NamedTuple instances in a value. *)
Fixpoint record_count (v : pyval) : nat :=
  match v with
  | PTuple _ vs => Datatypes.S (fold_right (fun w n => (record_count w + n)%nat) 0%nat vs)
  | _ => 0%nat
  end.

Definition records_in (ws : list pyval) : nat :=
  fold_right (fun w n => (record_count w + n)%nat) 0%nat ws.

(** Position and value of the entry that a lookup of [k] finds. *)
Fixpoint lru_pos {K V} (keq : K -> K -> bool) (k : K) (c : list (K * V))
    : option (nat * V) :=
  match c with
  | [] => None
  | (k', v) :: c' =>
      if keq k k' then Some (0%nat, v)
      else match lru_pos keq k c' with
           | Some (i, w) => Some (Datatypes.S i, w)
           | None => None
           end
  end.


(** Element-wise [==] of two tuples. *)
Fixpoint py_eqb_list (xs ys : list pyval) : bool :=
  match xs, ys with
  | [], [] => true
  | x :: xs', y :: ys' => py_eqb x y && py_eqb_list xs' ys'
  | _, _ => false
  end.

(** ** Definitions for the further properties *)

(** [p] holds of every character of [s]. *)
Fixpoint string_forall (p : ascii -> bool) (s : string) : bool :=
  match s with
  | EmptyString => true
  | String c rest => p c && string_forall p rest
  end.

(** A capital letter followed by one or more lower-case letters: a full
    match of [[A-Z][a-z]+]. *)
Definition is_capitalised (w : string) : bool :=
  match w with
  | String c (String d rest) => is_upper c && is_lower d && string_forall is_lower rest
  | _ => false
  end.

(** The characters of a table name. *)
Definition is_table_char (c : ascii) : bool :=
  is_lower c || Ascii.eqb c "_"%char.

(** The characters of [l] pushed, first to last, on the reversed word [w]. *)
Fixpoint push_chars (l : string) (w : list ascii) : list ascii :=
  match l with
  | EmptyString => w
  | String d l' => push_chars l' (d :: w)
  end.

(** The words of a class name, written one after the other. *)
Fixpoint concat_words (ws : list string) : string :=
  match ws with
  | [] => EmptyString
  | w :: ws' => w ++ concat_words ws'
  end.
(** *** The loops of [get], by name *)

Section ReadLoops.
Context {S : Type} `{Connection S}.
Variable reg : Registry.
Variables date_parse datetime_parse : string -> outcome pyval.

(** [self.get(type_._field_types[fieldname], val)], the class being looked
    up among the field types of the record class. *)
Fixpoint get_nested_field (fts : list (string * pytype)) (fieldname : string)
    {struct fts} : option (pyval -> M S (option pyval)) :=
  match fts with
  | [] => None
  | ft :: fts' =>
      if String.eqb (fst ft) fieldname
      then Some (get reg date_parse datetime_parse (snd ft))
      else get_nested_field fts' fieldname
  end.

Section Fill.
Variable field_types : list (string * pytype).
Variable fknames : gset string.

(** The loop over [zip(cur.description, row)] that fills [kwargs]. *)
Fixpoint fill_kwargs (cols : list (string * pyval)) (kwargs : list (string * pyval))
    {struct cols} : M S (list (string * pyval)) :=
  match cols with
  | [] => ret kwargs
  | (n, val) :: cols' =>
      if bool_decide (n ∈ fknames) then
        match get_nested_field field_types (strip_id n) with
        | None => raise KeyError
        | Some get_nested =>
            bind (get_nested val)
                 (fun r => fill_kwargs cols' ((n, default PNone r) :: kwargs))
        end
      else
        match lookup_field_type field_types n with
        | None => raise KeyError
        | Some ty =>
            bind (lift (convert_sql_result_value date_parse datetime_parse val ty))
                 (fun v => fill_kwargs cols' ((n, v) :: kwargs))
        end
  end.
End Fill.
End ReadLoops.

(** *** Invariants of a run *)

(** [m] keeps the property [P] of the engine state, whether it returns or
    raises. *)
Definition preserves {S : Type} {A : Type} (P : DB S -> Prop) (m : M S A) : Prop :=
  forall db, P db -> P (snd (m db)).

(** Run from [db], [m] removes nothing from the journal and appends to it
    statements that all satisfy [Q], at most [n] of which satisfy [W]. *)
Definition sends {S : Type} {A : Type} (Q : statement * list pyval -> bool)
    (W : statement -> bool) (n : nat) (m : M S A) (db : DB S) : Prop :=
  exists l,
    journal (snd (m db)) = (journal db ++ l)%list /\
    forallb Q l = true /\
    (length (List.filter (fun e => W (fst e)) l) <= n)%nat.

Definition is_key_select (st : statement) : bool :=
  match st with SqlSelectKey _ _ => true | _ => false end.


Definition is_write (st : statement) : bool :=
  match st with SqlInsert _ _ | SqlUpdate _ _ _ => true | _ => false end.

(** A statement of the write path whose parameters are as many as its
    placeholders: an existence query with its key, an [INSERT] with one
    value for each column, an [UPDATE] with one value for each column and
    the key. *)
Definition persist_statement_ok (e : statement * list pyval) : bool :=
  match e with
  | (SqlSelectKey _ _, ps) => Nat.eqb (length ps) 1
  | (SqlInsert _ cols, ps) => Nat.eqb (length ps) (length cols)
  | (SqlUpdate _ cols _, ps) => Nat.eqb (length ps) (Datatypes.S (length cols))
  | _ => false
  end.

(** The memo table of [_contains] is within the bound of its [lru_cache]. *)
Definition within_capacity {S : Type} (db : DB S) : Prop :=
  (N.of_nat (length (contains_cache db)) <= CONTAINS_MAXSIZE)%N.

(** The values of a row converted for the declared types of the fields,
    column by column; the first conversion that raises ends it. *)
Fixpoint convert_row (date_parse datetime_parse : string -> outcome pyval)
    (fts : list (string * pytype)) (row : list pyval) : outcome (list pyval) :=
  match fts, row with
  | ft :: fts', v :: row' =>
      match convert_sql_result_value date_parse datetime_parse v (snd ft) with
      | Ret w =>
          match convert_row date_parse datetime_parse fts' row' with
          | Ret ws => Ret (w :: ws)
          | Raise e => Raise e
          end
      | Raise e => Raise e
      end
  | _, _ => Ret []
  end.

(** *** The module [collection/schema.py] *)

Definition MathematicsSubjectClassification : pytype :=
  TNamedTuple "MathematicsSubjectClassification"
    [("subject_code", TInt); ("subject_name", TStr)].

Definition Dissertation : pytype :=
  TNamedTuple "Dissertation"
    [("dissertation_id", TInt); ("dissertation_title", TStr);
     ("dissertation_year", TInt); ("subject", MathematicsSubjectClassification);
     ("university", University)].

Definition Mathematician : pytype :=
  TNamedTuple "Mathematician"
    [("mathematician_id", TInt); ("mathematician_name", TStr);
     ("birth_date", TDate); ("death_date", TDate); ("dissertation", Dissertation)].

Definition AdvisorRelationship : pytype :=
  TNamedTuple "AdvisorRelationship"
    [("advisor", Mathematician); ("advisee", Mathematician); ("university", University)].

Definition Webpage : pytype :=
  TNamedTuple "Webpage"
    [("webpage_id", TInt); ("web_source", WebSource); ("path", TStr);
     ("query", TStr); ("timestamp", TDatetime)].

Definition MathGenealogyAssociatedLink : pytype :=
  TNamedTuple "MathGenealogyAssociatedLink"
    [("mathematician", Mathematician); ("webpage", Webpage); ("href_text", TStr)].

(** The classes in the order of their definition. *)
Definition schema_classes : list pytype :=
  [Country; University; MathematicsSubjectClassification; Dissertation;
   Mathematician; AdvisorRelationship; WebSource; Webpage;
   MathGenealogyAssociatedLink].

(** A registration that follows another, unless that one has raised. *)
Definition and_then (o : outcome Registry) (f : Registry -> outcome Registry)
    : outcome Registry :=
  match o with
  | Ret r => f r
  | Raise e => Raise e
  end.

(** The decorators of the module as the import applies them: class by
    class, and for each class from the decorator next to it upwards. *)
Definition schema_module : outcome Registry :=
  let mode m ty r := Ret (register_insert_mode m ty r) in
  and_then (and_then (and_then (and_then (and_then (and_then (and_then (and_then
  (and_then (and_then (and_then (and_then (and_then (and_then (and_then (and_then
  (and_then (
    Ret empty_registry)
    (register_alt_pk_names ["country_name"] Country))
    (mode InsertIfNewAltPKElseIgnore Country))
    (register_alt_pk_names ["university_name"; "country"] University))
    (mode InsertIfNewAltPKElseIgnore University))
    (register_pk_name "subject_code" MathematicsSubjectClassification))
    (register_alt_pk_names ["subject_name"] MathematicsSubjectClassification))
    (mode InsertIfNewPKElseIgnore MathematicsSubjectClassification))
    (mode InsertIfNoPK Dissertation))
    (mode InsertIfNewPKElseIgnore Mathematician))
    (register_alt_pk_names ["advisor"; "advisee"] AdvisorRelationship))
    (mode InsertIfNewAltPKElseIgnore AdvisorRelationship))
    (register_alt_pk_names ["base_url"] WebSource))
    (mode InsertIfNewAltPKElseIgnore WebSource))
    (register_alt_pk_names ["web_source"; "path"; "query"] Webpage))
    (mode InsertIfNewAltPKElseUpdate Webpage))
    (register_alt_pk_names ["mathematician"; "webpage"; "href_text"]
       MathGenealogyAssociatedLink))
    (mode InsertIfNewAltPKElseUpdate MathGenealogyAssociatedLink).

(** The registry after the import. *)
Definition schema_py_registry : Registry :=
  match schema_module with
  | Ret r => r
  | Raise _ => empty_registry
  end.

(** *** Further example classes and stores *)

(** A class of a single field, registered without foreign keys. *)
Definition Tag : pytype := TNamedTuple "Tag" [("tag_id", TInt)].

Definition tag_registry : Registry :=
  match register_fk_names [] Tag empty_registry with
  | Ret r => r
  | Raise _ => empty_registry
  end.

(** The store in which the row [(1)] of [tag] exists. *)
Definition tag_store : MemStore.t :=
  snd (MemStore.insert (<["tag" := MemStore.create_table (Some "tag_id") ["tag_id"]]> ∅)
         "tag" ["tag_id"] [PInt 1]).

(** A connection that answers every statement with the cursor it holds. *)
Module CannedStore.
Definition t : Type := cursor.
#[global] Instance connection : Connection t := fun c _ _ => (Ret c, c).
End CannedStore.


(** * Properties *)

(** ** Values *)

Lemma pyval_ind_nested (P : pyval -> Prop) :
  P PNone -> (forall z, P (PInt z)) -> (forall s, P (PStr s)) ->
  (forall o, P (PDate o)) -> (forall o u, P (PDatetime o u)) ->
  (forall ty vs, Forall P vs -> P (PTuple ty vs)) ->
  forall v, P v.
Proof.
  intros HN HI HS HD HT HP.
  fix IH 1.
  intros [ | z | s | o | o u | ty vs];
    [apply HN | apply HI | apply HS | apply HD | apply HT | ].
  apply HP. induction vs as [|w vs IHvs]; constructor; [apply IH | exact IHvs].
Qed.

Lemma py_eqb_tuple ty1 ty2 xs ys :
  py_eqb (PTuple ty1 xs) (PTuple ty2 ys) = py_eqb_list xs ys.
Proof.
  revert ys. induction xs as [|x xs IH]; intros [|y ys]; reflexivity.
Qed.

Lemma py_eqb_refl v : py_eqb v v = true.
Proof.
  induction v as [ | z | s | o | o u | ty vs IH] using pyval_ind_nested; simpl;
    rewrite ?Z.eqb_refl, ?String.eqb_refl; try reflexivity.
  change (py_eqb (PTuple ty vs) (PTuple ty vs) = true).
  rewrite py_eqb_tuple. induction IH as [|w ws Hw _ IHws]; simpl; [reflexivity|].
  now rewrite Hw, IHws.
Qed.

Lemma py_eqb_sym a : forall b, py_eqb a b = py_eqb b a.
Proof.
  induction a as [ | z | s | o | o u | ty vs IH] using pyval_ind_nested;
    intros [ | z' | s' | o' | o' u' | ty' vs']; simpl; try reflexivity.
  - apply Z.eqb_sym.
  - apply String.eqb_sym.
  - apply Z.eqb_sym.
  - now rewrite (Z.eqb_sym o), (Z.eqb_sym u).
  - change (py_eqb (PTuple ty vs) (PTuple ty' vs') = py_eqb (PTuple ty' vs') (PTuple ty vs)).
    rewrite !py_eqb_tuple. revert vs'.
    induction IH as [|w ws Hw _ IHws]; intros [|w' ws']; simpl; try reflexivity.
    now rewrite Hw, IHws.
Qed.

Lemma py_eqb_trans a : forall b c,
  py_eqb a b = true -> py_eqb b c = true -> py_eqb a c = true.
Proof.
  induction a as [ | z | s | o | o u | ty vs IH] using pyval_ind_nested;
    intros [ | z' | s' | o' | o' u' | ty' vs'] [ | z'' | s'' | o'' | o'' u'' | ty'' vs''];
    simpl; try discriminate; try reflexivity.
  - rewrite !Z.eqb_eq. congruence.
  - rewrite !String.eqb_eq. congruence.
  - rewrite !Z.eqb_eq. congruence.
  - rewrite !andb_true_iff, !Z.eqb_eq. intuition congruence.
  - change (py_eqb (PTuple ty vs) (PTuple ty' vs') = true ->
            py_eqb (PTuple ty' vs') (PTuple ty'' vs'') = true ->
            py_eqb (PTuple ty vs) (PTuple ty'' vs'') = true).
    rewrite !py_eqb_tuple. revert vs' vs''.
    induction IH as [|w ws Hw _ IHws]; intros [|w' ws'] [|w'' ws'']; simpl;
      try discriminate; try reflexivity.
    rewrite !andb_true_iff. intros [H1 H2] [H3 H4]. split; eauto.
Qed.

(** ** The metadata registry *)

(** C5: a class for which [register_insert_mode] has stored a mode gets no
    mode back from [_insert_mode]: the lookup falls off the end of the
    function and returns [None], whatever the registered mode is. *)
Theorem insert_mode_of_registered_class_is_none (reg : Registry) (ty : pytype)
    (mode : InsertMode) :
  _insert_mode (register_insert_mode mode ty reg) ty = None.
Proof.
  unfold _insert_mode, register_insert_mode. simpl.
  now rewrite lookup_insert_eq.
Qed.

Lemma insert_mode_default (reg : Registry) (ty : pytype) :
  INSERT_MODES reg !! type_name ty = None ->
  _insert_mode reg ty = Some 19.
Proof. unfold _insert_mode. now intros ->. Qed.

Example insert_mode_Country :
  INSERT_MODES schema_registry !! "Country" = Some InsertIfNewAltPKElseIgnore /\
  _insert_mode schema_registry Country = None.
Proof. split; vm_compute; reflexivity. Qed.

(** ** The write path *)

Section EngineFacts.
Context {S : Type} `{Connection S}.
Variable reg : Registry.

Lemma insert_or_update_unfold value check db :
  insert_or_update reg value check db =
    if readonly db then (Raise ValueError, db)
    else match primary_key_name reg value with
         | Raise e => (Raise e, db)
         | Ret pkname =>
             match value with
             | PTuple type_ vs =>
                 match _fields type_ with
                 | None => (Raise AttributeError, db)
                 | Some fields =>
                     match pkname with
                     | None => (Raise TypeError, db)
                     | Some pk =>
                         match getattr fields vs pk with
                         | None => (Raise AttributeError, db)
                         | Some pkvalue =>
                             persist_record reg (table_name value) pk pkvalue
                                            fields vs check db
                         end
                     end
                 end
             | _ => (Raise AttributeError, db)
             end
         end.
Proof.
  destruct value as [ | z | s | o | o u | type_ vs]; try reflexivity.
  simpl. destruct (readonly db); [reflexivity|].
  destruct (primary_key_name reg (PTuple type_ vs)) as [[pk|]|e]; reflexivity.
Qed.

(** The loop over the record's fields persists exactly the dependencies
    that the first loop collected, in their order. *)
Lemma persist_dependencies_all pkname check cs ws db :
  persist_dependencies reg pkname check cs ws db =
  persist_all reg check (map snd (dependency_items pkname (zip cs ws))) db.
Proof.
  revert cs db. induction ws as [|w ws IH]; intros [|c cs] db; try reflexivity.
  simpl. destruct (negb (is_pk pkname c) && is_tuple w); simpl; [|apply IH].
  unfold bind. destruct (insert_or_update reg w check db) as [[a|e] db']; [|reflexivity].
  rewrite IH. reflexivity.
Qed.

(** A dependency that raises in every state makes the whole loop raise. *)
Lemma persist_all_raises check deps d :
  In d deps ->
  (forall db, exists e, fst (insert_or_update reg d check db) = Raise e) ->
  forall db, exists e, fst (persist_all reg check deps db) = Raise e.
Proof.
  intros Hin Hd. induction deps as [|x deps IH]; [destruct Hin|].
  intros db. simpl. unfold bind.
  destruct Hin as [-> | Hin].
  - destruct (Hd db) as [e He].
    destruct (insert_or_update reg d check db) as [[a|e'] db']; simpl in *; eauto.
    discriminate.
  - destruct (insert_or_update reg x check db) as [[a|e'] db']; simpl; eauto.
    destruct (IH Hin db') as [e He].
    destruct (persist_all reg check deps db') as [[a'|e''] db'']; simpl in *; eauto.
    discriminate.
Qed.

(** With the primary-key field unset, neither branch of the existence
    decision assigns [update]; the test [if update:] then raises. *)
Lemma unset_pk_raises type_ vs pk fields check db :
  _primary_key_name reg type_ = Ret (Some pk) ->
  _fields type_ = Some fields ->
  getattr fields vs pk = Some PNone ->
  exists e, fst (insert_or_update reg (PTuple type_ vs) check db) = Raise e.
Proof.
  intros Hpk Hf Hv. rewrite insert_or_update_unfold.
  destruct (readonly db); [eauto|].
  unfold primary_key_name. simpl type_of. rewrite Hpk, Hf, Hv.
  unfold persist_record, decide_update. simpl. unfold bind, ret.
  destruct (persist_dependencies reg (Some pk) check fields vs db) as [[pks|e] db'];
    simpl; eauto.
Qed.

Lemma unset_pk_flat_raises type_ vs pk fields check db :
  _primary_key_name reg type_ = Ret (Some pk) ->
  _fields type_ = Some fields ->
  getattr fields vs pk = Some PNone ->
  readonly db = false ->
  dependency_items (Some pk) (zip fields vs) = [] ->
  insert_or_update reg (PTuple type_ vs) check db = (Raise UnboundLocalError, db).
Proof.
  intros Hpk Hf Hv Hro Hflat. rewrite insert_or_update_unfold, Hro.
  unfold primary_key_name. simpl type_of. rewrite Hpk, Hf, Hv.
  unfold persist_record, decide_update. simpl. unfold bind, ret.
  rewrite persist_dependencies_all, Hflat. reflexivity.
Qed.

(** C10: on a read-only [DB], [insert_or_update] raises [ValueError] for
    every value and either setting of the check flag, and the engine state
    is returned as it was: the store and the memo table are untouched, the
    journal has no new statement, and no nested record has been visited. *)
Theorem insert_or_update_readonly_rejected (value : pyval) (check : bool) (db : DB S) :
  readonly db = true ->
  insert_or_update reg value check db = (Raise ValueError, db).
Proof. intros Hro. rewrite insert_or_update_unfold, Hro. reflexivity. Qed.

(** C3: a record whose class has a primary-key field and whose
    primary-key field holds [None] is never inserted: [insert_or_update]
    raises instead of returning a key.  When the record has no nested
    record the exception is [UnboundLocalError], raised before any
    statement is issued. *)
Theorem insert_or_update_unset_pk_fails (type_ : pytype) (vs : list pyval)
    (pk : string) (fields : list string) (check : bool) (db : DB S) :
  _primary_key_name reg type_ = Ret (Some pk) ->
  _fields type_ = Some fields ->
  getattr fields vs pk = Some PNone ->
  (exists e, fst (insert_or_update reg (PTuple type_ vs) check db) = Raise e) /\
  (readonly db = false ->
   dependency_items (Some pk) (zip fields vs) = [] ->
   insert_or_update reg (PTuple type_ vs) check db = (Raise UnboundLocalError, db)).
Proof.
  intros Hpk Hf Hv. split.
  - eapply unset_pk_raises; eassumption.
  - intros Hro Hflat. eapply unset_pk_flat_raises; eassumption.
Qed.

(** C4: for a record whose class has no primary-key field
    ([_primary_key_name] is [None]), [insert_or_update] raises [TypeError]
    at [getattr(value, pkname)], before any statement is issued: nothing is
    inserted. *)
Theorem insert_or_update_without_pk_field_fails (type_ : pytype) (vs : list pyval)
    (fields : list string) (check : bool) (db : DB S) :
  readonly db = false ->
  _primary_key_name reg type_ = Ret None ->
  _fields type_ = Some fields ->
  insert_or_update reg (PTuple type_ vs) check db = (Raise TypeError, db).
Proof.
  intros Hro Hpk Hf. rewrite insert_or_update_unfold, Hro.
  unfold primary_key_name. simpl type_of. now rewrite Hpk, Hf.
Qed.

(** C9: a record that holds, in a reference field, a nested record whose
    primary key is unset is not persisted: the nested call raises, so
    [insert_or_update] raises before the statement for the referencing
    record is built. *)
Theorem insert_or_update_unset_dependency_fails (type_ : pytype) (vs : list pyval)
    (pk : string) (fields : list string) (pkvalue : pyval)
    (c : string) (typeN : pytype) (vsN : list pyval) (pkN : string)
    (fieldsN : list string) (check : bool) (db : DB S) :
  _primary_key_name reg type_ = Ret (Some pk) ->
  _fields type_ = Some fields ->
  getattr fields vs pk = Some pkvalue ->
  In (c, PTuple typeN vsN) (dependency_items (Some pk) (zip fields vs)) ->
  _primary_key_name reg typeN = Ret (Some pkN) ->
  _fields typeN = Some fieldsN ->
  getattr fieldsN vsN pkN = Some PNone ->
  exists e, fst (insert_or_update reg (PTuple type_ vs) check db) = Raise e.
Proof.
  intros Hpk Hf Hv Hin HpkN HfN HvN. rewrite insert_or_update_unfold.
  destruct (readonly db); [eauto|].
  unfold primary_key_name. simpl type_of. rewrite Hpk, Hf, Hv.
  unfold persist_record. unfold bind at 1.
  destruct (decide_update _ pk pkvalue check db) as [[[[u pcs] pvs]|e] db1]; [|eauto].
  unfold bind at 1. rewrite persist_dependencies_all.
  destruct (persist_all_raises check
              (map snd (dependency_items (Some pk) (zip fields vs)))
              (PTuple typeN vsN)) with (db := db1) as [e He].
  - change (PTuple typeN vsN) with (snd (c, PTuple typeN vsN)). now apply in_map.
  - intros db'. eapply unset_pk_raises; eassumption.
  - destruct (persist_all reg check _ db1) as [[pks|e'] db2]; simpl in *; eauto.
    discriminate.
Qed.

End EngineFacts.

(** ** The insert policy and the write path *)

Section PolicyFacts.
Context {S : Type} `{Connection S}.

Lemma dependency_in_values pkname cs ws d :
  In d (map snd (dependency_items pkname (zip cs ws))) -> In d ws.
Proof.
  intros Hin. apply in_map_iff in Hin as [[c w] [<- Hin]].
  apply filter_In in Hin as [Hin _]. simpl.
  revert cs Hin. induction ws as [|x ws IH]; intros [|c' cs] Hin;
    try destruct Hin.
  - left. congruence.
  - right. eauto.
Qed.

Lemma persist_all_ext (r1 r2 : Registry) check deps :
  Forall (fun d => forall c db,
            insert_or_update r1 d c db = insert_or_update r2 d c db) deps ->
  forall db, persist_all r1 check deps db = persist_all r2 check deps db.
Proof.
  induction 1 as [|d deps Hd _ IH]; intros db; [reflexivity|].
  simpl. unfold bind. rewrite Hd.
  destruct (insert_or_update r2 d check db) as [[a|e] db']; [|reflexivity].
  now rewrite IH.
Qed.

(** The write path reads the registry through [primary_key_name] only. *)
Lemma insert_or_update_pk_names_only (r1 r2 : Registry) :
  PK_NAMES r1 = PK_NAMES r2 ->
  forall value check (db : DB S),
    insert_or_update r1 value check db = insert_or_update r2 value check db.
Proof.
  intros Hpk value.
  induction value as [ | z | s | o | o u | type_ vs IH] using pyval_ind_nested;
    intros check db; rewrite !insert_or_update_unfold;
    unfold primary_key_name, _primary_key_name; rewrite Hpk; try reflexivity.
  destruct (readonly db); [reflexivity|]. simpl type_of.
  destruct (match PK_NAMES r2 !! type_name type_ with
            | Some pkname => Ret (Some pkname)
            | None => _ end) as [[pk|]|e]; try reflexivity.
  destruct (_fields type_) as [fields|]; [|reflexivity].
  destruct (getattr fields vs pk) as [pkvalue|]; [|reflexivity].
  unfold persist_record, bind.
  destruct (decide_update _ pk pkvalue check db) as [[[[u pcs] pvs]|e] db1];
    [|reflexivity].
  rewrite !persist_dependencies_all.
  rewrite (persist_all_ext r1 r2); [reflexivity|].
  apply List.Forall_forall. intros d Hd.
  apply dependency_in_values in Hd.
  rewrite List.Forall_forall in IH. exact (IH d Hd).
Qed.
End PolicyFacts.

(** C1: [insert_or_update] does not consult the insert mode or the
    alternate key of the record's class: replacing both registrations by
    any others leaves every call unchanged.  For the class [Country], whose
    mode is [InsertIfNewAltPKElseIgnore] with alternate key [country_name],
    persisting [(7, 'France')] while the row [(3, 'France')] exists issues an
    [INSERT] and returns the new rowid 4, not the existing key 3. *)
Theorem insert_or_update_ignores_insert_mode :
  (forall (S : Type) (H : Connection S) (reg : Registry)
          (modes : gmap string InsertMode) (alts : gmap string (gset string))
          (value : pyval) (check : bool) (db : DB S),
      insert_or_update (with_policy modes alts reg) value check db
      = insert_or_update reg value check db) /\
  INSERT_MODES schema_registry !! "Country" = Some InsertIfNewAltPKElseIgnore /\
  ALT_PK_NAMES schema_registry !! "Country" = Some {["country_name"]} /\
  (MemStore.rows <$> store_with_france !! "country")
    = Some [ {| MemStore.rowid := 3;
                MemStore.cells := [("country_id", PInt 3); ("country_name", PStr "France")] |} ] /\
  let '(r, db') := insert_or_update schema_registry france_7 true
                     (open_db store_with_france) in
  r = Ret (PInt 4) /\
  journal db' = [ (SqlSelectKey "country_id" "country", [PInt 7]);
                  (SqlInsert "country" ["country_name"], [PStr "France"]) ] /\
  (map MemStore.cells <$> (MemStore.rows <$> conn db' !! "country"))
    = Some [ [("country_id", PInt 3); ("country_name", PStr "France")];
             [("country_id", PInt 4); ("country_name", PStr "France")] ].
Proof.
  split.
  - intros S H reg modes alts value check db.
    now apply insert_or_update_pk_names_only.
  - vm_compute. repeat split; reflexivity.
Qed.

(** C2: persisting the record [WebSource(1, url)] twice on an empty table
    takes the insert branch both times: the calls return the keys 1 and 2
    and leave two rows, the second call sending an [INSERT] again. *)
Theorem persist_twice_duplicates_row :
  let '(r1, db1) := insert_or_update schema_registry web_source_1 true fresh_db in
  let '(r2, db2) := insert_or_update schema_registry web_source_1 true db1 in
  r1 = Ret (PInt 1) /\ r2 = Ret (PInt 2) /\
  journal db2 =
    [ (SqlSelectKey "web_source_id" "web_source", [PInt 1]);
      (SqlInsert "web_source" ["base_url"], [PStr "genealogy.math.ndsu.nodak.edu"]);
      (SqlInsert "web_source" ["base_url"], [PStr "genealogy.math.ndsu.nodak.edu"]) ] /\
  (map MemStore.rowid <$> (MemStore.rows <$> conn db2 !! "web_source")) = Some [1; 2].
Proof. vm_compute. repeat split; reflexivity. Qed.

(** ** The read path *)

Lemma bind_run {S A B} (m : M S A) (k : A -> M S B) (db : DB S) :
  bind m k db = match m db with
                | (Ret a, db') => k a db'
                | (Raise e, db') => (Raise e, db')
                end.
Proof. reflexivity. Qed.

Section ReadFacts.
Context {S : Type} `{Connection S}.
Variable reg : Registry.
Variables date_parse datetime_parse : string -> outcome pyval.

(** Without a [register_fk_names] entry for the class, [get] cannot
    build a record: either no row is found, or [_foreign_key_names]
    raises on [type._field_types]. *)
Lemma get_without_fk_names type_ pkvalue (db : DB S) :
  FK_NAMES reg !! type_name type_ = None ->
  returns_record (fst (get reg date_parse datetime_parse type_ pkvalue db)) = false.
Proof.
  intros Hfk.
  destruct type_ as [ | | | | | name fts]; simpl get;
    try (rewrite bind_run; unfold lift, raise;
         destruct (_primary_key_name reg _) as [pk|e]; reflexivity).
  rewrite bind_run. unfold lift at 1.
  destruct (_primary_key_name reg (TNamedTuple name fts)) as [pk|e];
    [|reflexivity].
  cbv beta iota. rewrite bind_run.
  destruct (conn_execute _ [pkvalue] db) as [[cur|e] db1]; [|reflexivity].
  cbv beta iota.
  destruct (fetchone cur) as [row|]; [|reflexivity].
  rewrite bind_run. unfold lift at 1, _foreign_key_names.
  simpl in Hfk. simpl type_name. rewrite Hfk. reflexivity.
Qed.

(** A row that is found makes [get] raise [AttributeError]. *)
Lemma get_found_raises name fts pkvalue (db db1 : DB S) pk cur row :
  FK_NAMES reg !! name = None ->
  _primary_key_name reg (TNamedTuple name fts) = Ret pk ->
  conn_execute (SqlSelectRow (map fst fts) (_table_name (TNamedTuple name fts)) pk)
               [pkvalue] db = (Ret cur, db1) ->
  fetchone cur = Some row ->
  get reg date_parse datetime_parse (TNamedTuple name fts) pkvalue db
  = (Raise AttributeError, db1).
Proof.
  intros Hfk Hpk Hex Hrow. simpl.
  rewrite bind_run. unfold lift at 1. rewrite Hpk.
  cbv beta iota. rewrite bind_run, Hex. cbv beta iota. rewrite Hrow.
  rewrite bind_run. unfold lift at 1, _foreign_key_names.
  simpl type_name. rewrite Hfk. reflexivity.
Qed.

(** C6: for a class without a [register_fk_names] entry (every class of
    [schema.py]), [get] applied to the key returned by [insert_or_update]
    never returns a record, equal to the persisted one or not. *)
Theorem get_after_persist_returns_no_record (value : pyval) (check : bool)
    (key : pyval) (db db' : DB S) :
  FK_NAMES reg !! type_name (type_of value) = None ->
  insert_or_update reg value check db = (Ret key, db') ->
  returns_record (fst (get reg date_parse datetime_parse (type_of value) key db')) = false.
Proof.
  intros Hfk _. now apply get_without_fk_names.
Qed.
End ReadFacts.

(** On the in-memory store, the record [WebSource(1, url)] is persisted
    with key 1 and its row exists, and [get(WebSource, 1)] raises. *)
Example get_web_source_raises :
  let '(r, db1) := insert_or_update schema_registry web_source_1 true fresh_db in
  r = Ret (PInt 1) /\
  is_ret (fst (get schema_registry reject_iso reject_iso WebSource (PInt 1) db1)) = false.
Proof. vm_compute. split; reflexivity. Qed.

(** A class of a single field, on a store whose query finds the row:
    [get] reaches [_foreign_key_names] and raises [AttributeError]. *)
Example get_single_field_raises :
  let Tag := TNamedTuple "Tag" [("tag_id", TInt)] in
  let s := snd (MemStore.insert (<["tag" := MemStore.create_table (Some "tag_id") ["tag_id"]]> ∅)
                  "tag" ["tag_id"] [PInt 1]) in
  fst (get empty_registry reject_iso reject_iso Tag (PInt 1) (open_db s))
  = Raise AttributeError.
Proof. vm_compute. reflexivity. Qed.

(** ** The memo table *)

Section LruFacts.
Context {K V : Type} (keq : K -> K -> bool).
Hypothesis keq_refl : forall k, keq k k = true.
Hypothesis keq_sym : forall a b, keq a b = keq b a.
Hypothesis keq_trans : forall a b c, keq a b = true -> keq b c = true -> keq a c = true.

Lemma keq_false_r k k' k0 :
  keq k k' = false -> keq k' k0 = true -> keq k k0 = false.
Proof.
  intros Hne He. destruct (keq k k0) eqn:E; [|reflexivity].
  rewrite <- Hne. symmetry. apply keq_trans with k0; [exact E|].
  now rewrite keq_sym.
Qed.

Lemma lru_pos_lt k (c : list (K * V)) i b :
  lru_pos keq k c = Some (i, b) -> (i < length c)%nat.
Proof.
  revert i. induction c as [|[k0 v0] c IH]; intros i; simpl; [discriminate|].
  destruct (keq k k0).
  - intros [= <- _]. lia.
  - destruct (lru_pos keq k c) as [[j w]|]; [|discriminate].
    intros [= <- <-]. specialize (IH j eq_refl). lia.
Qed.

(** A lookup of an equal key finds the same entry. *)
Lemma lru_take_same k k' (c : list (K * V)) i b :
  keq k k' = true -> lru_pos keq k c = Some (i, b) ->
  exists r, lru_take keq k' c = Some (b, r).
Proof.
  intros He. revert i. induction c as [|[k0 v0] c IH]; intros i; simpl; [discriminate|].
  destruct (keq k k0) eqn:E.
  - intros [= _ <-].
    assert (keq k' k0 = true) as ->; [|eauto].
    apply keq_trans with k; [now rewrite keq_sym | exact E].
  - assert (keq k' k0 = false) as ->.
    { destruct (keq k' k0) eqn:E'; [|reflexivity].
      rewrite <- E. symmetry. now apply keq_trans with k'. }
    destruct (lru_pos keq k c) as [[j w]|]; [|discriminate].
    intros [= _ <-]. destruct (IH j eq_refl) as [r ->]. eauto.
Qed.

(** Taking out the entry of another key moves the entry of [k] no
    further from the front. *)
Lemma lru_take_other k k' (c r : list (K * V)) i b v' :
  keq k k' = false -> lru_pos keq k c = Some (i, b) ->
  lru_take keq k' c = Some (v', r) ->
  exists i', lru_pos keq k r = Some (i', b) /\ (i' <= i)%nat.
Proof.
  intros Hne. revert i r.
  induction c as [|[k0 v0] c IH]; intros i r; simpl; [discriminate|].
  destruct (keq k' k0) eqn:E'.
  - rewrite (keq_false_r k k' k0 Hne E').
    destruct (lru_pos keq k c) as [[j w]|] eqn:Ep; [|discriminate].
    intros [= <- <-] [= _ <-]. exists j. split; [exact Ep | lia].
  - destruct (lru_take keq k' c) as [[w r']|] eqn:Et; [|discriminate].
    destruct (keq k k0) eqn:E.
    + intros [= <- <-] [= <- <-]. simpl. rewrite E. exists 0%nat. split; [reflexivity | lia].
    + destruct (lru_pos keq k c) as [[j w0]|]; [|discriminate].
      intros [= <- <-] [= <- <-]. simpl. rewrite E.
      destruct (IH j r' eq_refl eq_refl) as [j' [-> Hle]].
      exists (Datatypes.S j'). split; [reflexivity | lia].
Qed.

Lemma lru_pos_removelast k (c : list (K * V)) i b :
  lru_pos keq k c = Some (i, b) -> (Datatypes.S i < length c)%nat ->
  lru_pos keq k (removelast c) = Some (i, b).
Proof.
  revert i. induction c as [|[k0 v0] c IH]; intros i; [discriminate|].
  destruct c as [|e c'].
  - simpl. intros _ Hlt. lia.
  - change (removelast ((k0, v0) :: e :: c')) with ((k0, v0) :: removelast (e :: c')).
    change (lru_pos keq k ((k0, v0) :: e :: c')) with
      (if keq k k0 then Some (0%nat, v0)
       else match lru_pos keq k (e :: c') with
            | Some (i, w) => Some (Datatypes.S i, w)
            | None => None
            end).
    change (lru_pos keq k ((k0, v0) :: removelast (e :: c'))) with
      (if keq k k0 then Some (0%nat, v0)
       else match lru_pos keq k (removelast (e :: c')) with
            | Some (i, w) => Some (Datatypes.S i, w)
            | None => None
            end).
    destruct (keq k k0); [tauto|].
    destruct (lru_pos keq k (e :: c')) as [[j w]|]; [|discriminate].
    intros [= <- <-] Hlt. rewrite (IH j eq_refl); [reflexivity|].
    simpl in Hlt |- *. lia.
Qed.

(** Storing the answer for another key moves the entry of [k] one place
    back, and keeps it while it is not the least recently used entry of
    a full table. *)
Lemma lru_store_other maxsize k k' v' (c : list (K * V)) i b :
  keq k k' = false -> lru_pos keq k c = Some (i, b) ->
  (N.of_nat i + 1 < maxsize)%N ->
  lru_pos keq k (lru_store maxsize k' v' c) = Some (Datatypes.S i, b).
Proof.
  intros Hne Hpos Hlt. unfold lru_store.
  destruct (N.eqb_spec maxsize 0); [lia|].
  destruct (N.leb_spec maxsize (N.of_nat (length c))).
  - simpl. rewrite Hne. rewrite (lru_pos_removelast k c i b Hpos); [reflexivity|lia].
  - simpl. now rewrite Hne, Hpos.
Qed.

Lemma lru_take_none k (c : list (K * V)) :
  lru_pos keq k c = None -> lru_take keq k c = None.
Proof.
  induction c as [|[k0 v0] c IH]; simpl; [reflexivity|].
  destruct (keq k k0); [discriminate|].
  destruct (lru_pos keq k c) as [[j w]|]; [discriminate|].
  intros _. now rewrite IH.
Qed.

Lemma lru_take_keeps_none k k' (c r : list (K * V)) v' :
  lru_pos keq k c = None -> lru_take keq k' c = Some (v', r) ->
  lru_pos keq k r = None.
Proof.
  revert r. induction c as [|[k0 v0] c IH]; intros r; simpl; [discriminate|].
  destruct (keq k k0) eqn:E; [discriminate|].
  destruct (lru_pos keq k c) as [[j w]|] eqn:Ep; [discriminate|]. intros _.
  destruct (keq k' k0).
  - intros [= _ <-]. exact Ep.
  - destruct (lru_take keq k' c) as [[w r']|]; [|discriminate].
    intros [= <- <-]. simpl. rewrite E. now rewrite (IH r' eq_refl eq_refl).
Qed.

Lemma lru_pos_removelast_none k (c : list (K * V)) :
  lru_pos keq k c = None -> lru_pos keq k (removelast c) = None.
Proof.
  induction c as [|[k0 v0] c IH]; [reflexivity|].
  destruct c as [|e c']; [reflexivity|].
  change (removelast ((k0, v0) :: e :: c')) with ((k0, v0) :: removelast (e :: c')).
  change (lru_pos keq k ((k0, v0) :: e :: c')) with
    (if keq k k0 then Some (0%nat, v0)
     else match lru_pos keq k (e :: c') with
          | Some (i, w) => Some (Datatypes.S i, w)
          | None => None
          end).
  change (lru_pos keq k ((k0, v0) :: removelast (e :: c'))) with
    (if keq k k0 then Some (0%nat, v0)
     else match lru_pos keq k (removelast (e :: c')) with
          | Some (i, w) => Some (Datatypes.S i, w)
          | None => None
          end).
  destruct (keq k k0); [discriminate|].
  destruct (lru_pos keq k (e :: c')) as [[j w]|]; [discriminate|].
  intros _. now rewrite IH.
Qed.

Lemma lru_store_keeps_none maxsize k k' v' (c : list (K * V)) :
  keq k k' = false -> lru_pos keq k c = None ->
  lru_pos keq k (lru_store maxsize k' v' c) = None.
Proof.
  intros Hne Hpos. unfold lru_store.
  destruct (maxsize =? 0)%N; [exact Hpos|].
  destruct (maxsize <=? N.of_nat (length c))%N; simpl; rewrite Hne.
  - now rewrite lru_pos_removelast_none.
  - now rewrite Hpos.
Qed.
End LruFacts.

Lemma lru_pos_here {K V} (keq : K -> K -> bool) k k' (v : V) c :
  keq k k' = true -> lru_pos keq k ((k', v) :: c) = Some (0%nat, v).
Proof. intros E. simpl. now rewrite E. Qed.

Lemma lru_pos_later {K V} (keq : K -> K -> bool) k k' (v : V) c :
  keq k k' = false ->
  lru_pos keq k ((k', v) :: c) =
  match lru_pos keq k c with
  | Some (i, w) => Some (Datatypes.S i, w)
  | None => None
  end.
Proof. intros E. simpl. now rewrite E. Qed.

Lemma ckey_eqb_refl k : ckey_eqb k k = true.
Proof.
  destruct k as [[t p] v]. simpl.
  now rewrite !String.eqb_refl, py_eqb_refl.
Qed.

Lemma ckey_eqb_sym a b : ckey_eqb a b = ckey_eqb b a.
Proof.
  destruct a as [[t p] v], b as [[t' p'] v']. simpl.
  now rewrite (String.eqb_sym t), (String.eqb_sym p), (py_eqb_sym v).
Qed.

Lemma ckey_eqb_trans a b c :
  ckey_eqb a b = true -> ckey_eqb b c = true -> ckey_eqb a c = true.
Proof.
  destruct a as [[t p] v], b as [[t' p'] v'], c as [[t'' p''] v'']. simpl.
  rewrite !andb_true_iff, !String.eqb_eq.
  intros [[-> ->] Hv] [[-> ->] Hv']. repeat split; eauto using py_eqb_trans.
Qed.

(** ** The existence check *)

Section ContainsFacts.
Context {S : Type} `{Connection S}.

Lemma conn_execute_cache st ps (db : DB S) :
  contains_cache (snd (conn_execute st ps db)) = contains_cache db.
Proof. unfold conn_execute. now destruct (execute (conn db) st ps). Qed.

Lemma contains_query_cache t p v (db : DB S) :
  contains_cache (snd (_contains_query t p v db)) = contains_cache db.
Proof.
  unfold _contains_query. rewrite bind_run.
  pose proof (conn_execute_cache (SqlSelectKey p t) [v] db) as Hc.
  destruct (conn_execute (SqlSelectKey p t) [v] db) as [[cur|e] db1]; exact Hc.
Qed.

(** A remembered answer is returned as it is, and neither the store nor
    the journal is touched. *)
Lemma contains_hit t p v (db : DB S) i b :
  lru_pos ckey_eqb (t, p, v) (contains_cache db) = Some (i, b) ->
  exists c', _contains t p v db = (Ret b, set_cache c' db).
Proof.
  intros Hpos. unfold _contains, lru_hit.
  destruct (lru_take_same ckey_eqb ckey_eqb_sym ckey_eqb_trans
              (t, p, v) (t, p, v) (contains_cache db) i b
              (ckey_eqb_refl _) Hpos) as [r ->].
  eauto.
Qed.

(** After a check that returns, the memo table has the answer at its
    front. *)
Lemma contains_ret_cached t p v (db db' : DB S) b :
  _contains t p v db = (Ret b, db') ->
  lru_pos ckey_eqb (t, p, v) (contains_cache db') = Some (0%nat, b).
Proof.
  unfold _contains, lru_hit.
  destruct (lru_take ckey_eqb (t, p, v) (contains_cache db)) as [[w r]|].
  - intros [= <- <-]. unfold set_cache. simpl contains_cache.
    apply lru_pos_here, ckey_eqb_refl.
  - destruct (_contains_query t p v db) as [[b'|e] db1]; [|discriminate].
    intros [= <- <-]. unfold set_cache. simpl contains_cache. unfold lru_store.
    change (CONTAINS_MAXSIZE =? 0)%N with false.
    destruct (CONTAINS_MAXSIZE <=? _)%N; apply lru_pos_here, ckey_eqb_refl.
Qed.

(** One check, of any key, moves a remembered answer at most one place
    back and does not change it. *)
Lemma contains_pos_step t p v (db : DB S) k i b :
  lru_pos ckey_eqb k (contains_cache db) = Some (i, b) ->
  (N.of_nat i + 1 < CONTAINS_MAXSIZE)%N ->
  exists i', lru_pos ckey_eqb k (contains_cache (snd (_contains t p v db))) = Some (i', b)
             /\ (i' <= Datatypes.S i)%nat.
Proof.
  intros Hpos Hlt. unfold _contains, lru_hit.
  destruct (ckey_eqb k (t, p, v)) eqn:E.
  - destruct (lru_take_same ckey_eqb ckey_eqb_sym ckey_eqb_trans
                k (t, p, v) (contains_cache db) i b E Hpos) as [r ->].
    unfold set_cache. simpl snd. simpl contains_cache.
    rewrite (lru_pos_here _ _ _ _ _ E). exists 0%nat. split; [reflexivity | lia].
  - destruct (lru_take ckey_eqb (t, p, v) (contains_cache db)) as [[w r]|] eqn:Et.
    + destruct (lru_take_other ckey_eqb ckey_eqb_sym ckey_eqb_trans
                  k (t, p, v) (contains_cache db) r i b w E Hpos Et) as [i' [Hi' Hle]].
      unfold set_cache. simpl snd. simpl contains_cache.
      rewrite (lru_pos_later _ _ _ _ _ E), Hi'.
      exists (Datatypes.S i'). split; [reflexivity | lia].
    + pose proof (contains_query_cache t p v db) as Hc.
      destruct (_contains_query t p v db) as [[b'|e] db1]; simpl snd in Hc |- *.
      * unfold set_cache. simpl contains_cache. rewrite Hc.
        exists (Datatypes.S i). split; [|lia].
        now apply lru_store_other.
      * rewrite Hc, Hpos. exists i. split; [reflexivity | lia].
Qed.

Lemma later_checks_pos calls : forall (db : DB S) k i b,
  lru_pos ckey_eqb k (contains_cache db) = Some (i, b) ->
  (N.of_nat (i + length calls) < CONTAINS_MAXSIZE)%N ->
  exists i', lru_pos ckey_eqb k (contains_cache (later_checks calls db)) = Some (i', b)
             /\ (i' <= i + length calls)%nat.
Proof.
  induction calls as [|[g [[t p] v]] calls IH]; intros db k i b Hpos Hlt; simpl.
  - exists i. split; [exact Hpos | lia].
  - destruct (contains_pos_step t p v (out_of_band g db) k i b Hpos)
      as [i1 [H1 Hle1]]; [simpl in Hlt; lia|].
    destruct (IH _ k i1 b H1) as [i2 [H2 Hle2]]; [simpl in Hlt; lia|].
    exists i2. split; [exact H2 | simpl; lia].
Qed.

(** C8, as amended: once [_contains] has returned [True] for a key, it
    returns [True] for that key again after any later existence checks,
    fewer than [lru_cache]'s bound of 1,000,000 in number, whatever was
    done to the store in between and before the final call. *)
Theorem contains_true_stays_true_within_bound (t p : string) (v : pyval)
    (db db1 : DB S) (calls : list ((S -> S) * ckey)) (g : S -> S) :
  _contains t p v db = (Ret true, db1) ->
  (N.of_nat (length calls) < CONTAINS_MAXSIZE)%N ->
  fst (_contains t p v (out_of_band g (later_checks calls db1))) = Ret true.
Proof.
  intros Htrue Hlen.
  apply contains_ret_cached in Htrue.
  destruct (later_checks_pos calls db1 (t, p, v) 0%nat true Htrue)
    as [i [Hpos _]]; [simpl; lia|].
  destruct (contains_hit t p v (out_of_band g (later_checks calls db1)) i true Hpos)
    as [c' ->].
  reflexivity.
Qed.
End ContainsFacts.

(** ** Eviction from the memo table, on the in-memory store *)

Lemma country_key_eqb a b : ckey_eqb (country_key a) (country_key b) = Z.eqb a b.
Proof. reflexivity. Qed.

Lemma mem_query_absent (k : Z) :
  execute schema_store (SqlSelectKey "country_id" "country") [PInt k]
  = (Ret {| lastrowid := PNone; description := ["country_id"]; fetchone := None |},
     schema_store).
Proof. vm_compute. reflexivity. Qed.

(** One existence check on [country] while its table is empty. *)
Lemma mem_contains_step (k : Z) (db : DB MemStore.t) :
  conn db = schema_store ->
  let db' := snd (_contains "country" "country_id" (PInt k) db) in
  conn db' = schema_store /\
  contains_cache db' =
    match lru_take ckey_eqb (country_key k) (contains_cache db) with
    | Some (b, r) => (country_key k, b) :: r
    | None => lru_store CONTAINS_MAXSIZE (country_key k) false (contains_cache db)
    end /\
  (lru_take ckey_eqb (country_key k) (contains_cache db) = None ->
   fst (_contains "country" "country_id" (PInt k) db) = Ret false).
Proof.
  intros Hconn. unfold _contains, lru_hit. fold (country_key k).
  destruct (lru_take ckey_eqb (country_key k) (contains_cache db)) as [[b r]|].
  - simpl. repeat split; [exact Hconn | discriminate].
  - unfold _contains_query, conn_execute. rewrite bind_run, Hconn, mem_query_absent.
    simpl. repeat split.
Qed.

Lemma absent_entries_miss k0 lo zs :
  Forall (fun z => z < lo) zs -> k0 < lo ->
  lru_pos ckey_eqb (country_key lo) (map absent_entry zs ++ [(country_key k0, true)]) = None.
Proof.
  intros Hzs Hk0. induction Hzs as [|z zs Hz _ IH].
  - simpl app. rewrite lru_pos_later; [reflexivity|].
    rewrite country_key_eqb. apply Z.eqb_neq. lia.
  - simpl map. simpl app. unfold absent_entry at 1. rewrite lru_pos_later.
    + now rewrite IH.
    + rewrite country_key_eqb. apply Z.eqb_neq. lia.
Qed.

Lemma absent_entries_forgotten k0 zs :
  Forall (fun z => k0 < z) zs ->
  lru_pos ckey_eqb (country_key k0) (map absent_entry zs) = None.
Proof.
  induction 1 as [|z zs Hz _ IH]; [reflexivity|].
  simpl map. unfold absent_entry at 1. rewrite lru_pos_later.
  - now rewrite IH.
  - rewrite country_key_eqb. apply Z.eqb_neq. lia.
Qed.

Lemma keys_from_gt k0 n : forall lo, k0 < lo -> Forall (fun k => k0 < k) (keys_from lo n).
Proof.
  induction n as [|n IH]; intros lo Hlo; simpl; constructor; [exact Hlo|].
  apply IH. lia.
Qed.

(** Checks of other keys do not bring a forgotten key back. *)
Lemma contains_each_keeps_forgotten k0 keys : forall (db : DB MemStore.t),
  conn db = schema_store ->
  lru_pos ckey_eqb (country_key k0) (contains_cache db) = None ->
  Forall (fun k => k0 < k) keys ->
  let db' := snd (contains_each "country" "country_id" keys db) in
  conn db' = schema_store /\
  lru_pos ckey_eqb (country_key k0) (contains_cache db') = None.
Proof.
  induction keys as [|k keys IH]; intros db Hconn Hnone Hkeys; [now split|].
  inversion Hkeys as [|? ? Hk Hrest]; subst.
  destruct (mem_contains_step k db Hconn) as [Hc [Hcache _]].
  simpl. rewrite bind_run.
  destruct (_contains "country" "country_id" (PInt k) db) as [[b|e] db1];
    simpl in Hc, Hcache |- *.
  2:{ split; [exact Hc|]. rewrite Hcache.
      assert (ckey_eqb (country_key k0) (country_key k) = false) as Hne
        by (rewrite country_key_eqb; apply Z.eqb_neq; lia).
      destruct (lru_take ckey_eqb (country_key k) (contains_cache db)) as [[b r]|] eqn:Et.
      - rewrite lru_pos_later by exact Hne.
        now rewrite (lru_take_keeps_none ckey_eqb _ _ _ _ _ Hnone Et).
      - now apply lru_store_keeps_none. }
  apply IH; [exact Hc | | exact Hrest].
  rewrite Hcache.
  assert (ckey_eqb (country_key k0) (country_key k) = false) as Hne
    by (rewrite country_key_eqb; apply Z.eqb_neq; lia).
  destruct (lru_take ckey_eqb (country_key k) (contains_cache db)) as [[b' r]|] eqn:Et.
  - rewrite lru_pos_later by exact Hne.
    now rewrite (lru_take_keeps_none ckey_eqb _ _ _ _ _ Hnone Et).
  - now apply lru_store_keeps_none.
Qed.

Lemma mem_contains_miss (k : Z) (db : DB MemStore.t) :
  conn db = schema_store ->
  lru_take ckey_eqb (country_key k) (contains_cache db) = None ->
  exists db', _contains "country" "country_id" (PInt k) db = (Ret false, db') /\
              conn db' = schema_store /\
              contains_cache db' =
                lru_store CONTAINS_MAXSIZE (country_key k) false (contains_cache db).
Proof.
  intros Hconn Hmiss. unfold _contains, lru_hit. fold (country_key k). rewrite Hmiss.
  unfold _contains_query, conn_execute. rewrite bind_run, Hconn, mem_query_absent.
  simpl. eexists. repeat split.
Qed.

(** Checks of [n] fresh keys, one after the other, push the entry of [k0]
    out of the memo table once the table is full. *)
Lemma contains_each_evicts k0 n : forall lo zs (db : DB MemStore.t),
  conn db = schema_store ->
  contains_cache db = (map absent_entry zs ++ [(country_key k0, true)])%list ->
  Forall (fun z => z < lo) zs ->
  Forall (fun z => k0 < z) zs ->
  k0 < lo ->
  (N.of_nat (length zs) < CONTAINS_MAXSIZE)%N ->
  (CONTAINS_MAXSIZE <= N.of_nat (length zs + n))%N ->
  let db' := snd (contains_each "country" "country_id" (keys_from lo n) db) in
  conn db' = schema_store /\
  lru_pos ckey_eqb (country_key k0) (contains_cache db') = None.
Proof.
  induction n as [|n IH]; intros lo zs db Hconn Hcache Hlt Hgt Hk0 Hroom Hfull.
  - exfalso. rewrite Nat.add_0_r in Hfull. lia.
  - destruct (mem_contains_miss lo db Hconn) as [db1 [Hrun [Hc Hcache1]]].
    { rewrite Hcache. apply lru_take_none. now apply absent_entries_miss. }
    simpl keys_from. simpl contains_each. rewrite bind_run, Hrun. cbv beta iota.
    rewrite Hcache in Hcache1. unfold lru_store in Hcache1.
    change (CONTAINS_MAXSIZE =? 0)%N with false in Hcache1. cbv iota in Hcache1.
    rewrite length_app, length_map in Hcache1. simpl length in Hcache1.
    destruct (N.leb_spec CONTAINS_MAXSIZE (N.of_nat (length zs + 1))) as [Hf|Hf].
    + rewrite removelast_last in Hcache1.
      apply contains_each_keeps_forgotten; [exact Hc | | apply keys_from_gt; lia].
      rewrite Hcache1.
      apply (absent_entries_forgotten k0 (lo :: zs)). constructor; [lia | exact Hgt].
    + apply (IH (lo + 1) (lo :: zs) db1 Hc).
      * rewrite Hcache1. reflexivity.
      * constructor; [lia|]. eapply Forall_impl; [exact Hlt|]. simpl. intros; lia.
      * constructor; [lia | exact Hgt].
      * lia.
      * simpl length. lia.
      * simpl length. lia.
Qed.

Lemma first_check_finds_france :
  _contains "country" "country_id" (PInt 3) (open_db store_with_france)
  = (Ret true,
     {| readonly := false; conn := store_with_france;
        contains_cache := [(country_key 3, true)];
        journal := [(SqlSelectKey "country_id" "country", [PInt 3])] |}).
Proof. vm_compute. reflexivity. Qed.

(** C8, counterexample: the check of key 3 on [country] returns [True];
    the row is then removed behind the engine's back and the 1,000,000 keys
    4, 5, ... are checked; the next check of key 3 returns [False]. *)
Lemma contains_true_then_false_after_eviction :
  let '(r1, db1) :=
    _contains "country" "country_id" (PInt 3) (open_db store_with_france) in
  let db2 := out_of_band (fun _ => schema_store) db1 in
  let db3 := snd (contains_each "country" "country_id"
                    (keys_from 4 (N.to_nat CONTAINS_MAXSIZE)) db2) in
  r1 = Ret true /\
  fst (_contains "country" "country_id" (PInt 3) db3) = Ret false.
Proof.
  rewrite first_check_finds_france. cbv beta iota zeta.
  split; [reflexivity|].
  destruct (contains_each_evicts 3 (N.to_nat CONTAINS_MAXSIZE) 4 []
              (out_of_band (fun _ => schema_store)
                 {| readonly := false; conn := store_with_france;
                    contains_cache := [(country_key 3, true)];
                    journal := [(SqlSelectKey "country_id" "country", [PInt 3])] |}))
    as [Hconn Hnone].
  - reflexivity.
  - reflexivity.
  - constructor.
  - constructor.
  - lia.
  - reflexivity.
  - rewrite Nat.add_0_l, N2Nat.id. apply N.le_refl.
  - destruct (mem_contains_miss 3 _ Hconn (lru_take_none ckey_eqb _ _ Hnone))
      as [db' [-> _]].
    reflexivity.
Qed.

(** ** What a persist leaves in the memo table *)

Section CacheFacts.
Context {S : Type} `{Connection S}.
Variable reg : Registry.
Variable k : ckey.
Variable b : bool.












End CacheFacts.

Section PersistCacheFacts.
Context {S : Type} `{Connection S}.
Variable reg : Registry.

Lemma conn_execute_journal st ps (db : DB S) :
  journal (snd (conn_execute st ps db)) = (journal db ++ [(st, ps)])%list.
Proof. unfold conn_execute. now destruct (execute (conn db) st ps). Qed.

End PersistCacheFacts.


(** ** The order of the statements of one persist *)

Section OrderFacts.
Context {S : Type} `{Connection S}.
Variable reg : Registry.

(** The statement that [issue_statement] sends for a decided [update]. *)
Lemma issue_statement_journal t pk pkvalue (u : bool) cols vals key (db db' : DB S) :
  issue_statement t pk pkvalue (Some u) cols vals db = (Ret key, db') ->
  journal db' =
    (journal db ++ [(if u then SqlUpdate t cols pk else SqlInsert t cols,
                     if u then vals ++ [pkvalue] else vals)])%list.
Proof.
  unfold issue_statement. destruct u; rewrite bind_run.
  - pose proof (conn_execute_journal (SqlUpdate t cols pk) (vals ++ [pkvalue])%list db) as Hj.
    destruct (conn_execute _ _ db) as [[cur|e] db3]; [|discriminate].
    intros [= _ <-]. exact Hj.
  - pose proof (conn_execute_journal (SqlInsert t cols) vals db) as Hj.
    destruct (conn_execute _ _ db) as [[cur|e] db3]; [|discriminate].
    intros [= _ <-]. exact Hj.
Qed.

(** X13: when [insert_or_update] returns, its run was: the existence decision,
    then the persists of all the dependencies, then one statement for the
    record itself, whose foreign-key columns are bound to the keys that
    the persists of the dependencies returned. *)
Lemma persist_writes_dependencies_first type_ vs pk fields pkvalue check key
    (db db' : DB S) :
  _primary_key_name reg type_ = Ret (Some pk) ->
  _fields type_ = Some fields ->
  getattr fields vs pk = Some pkvalue ->
  insert_or_update reg (PTuple type_ vs) check db = (Ret key, db') ->
  exists (u : bool) pcs pvs db1 pks db2,
    decide_update (_table_name type_) pk pkvalue check db = (Ret (Some u, pcs, pvs), db1) /\
    persist_all reg check (map snd (dependency_items (Some pk) (zip fields vs))) db1
    = (Ret pks, db2) /\
    let cols := (map fst (scalar_items (Some pk) (zip fields vs)) ++ pcs
                 ++ map (fun c => c +:+ "_id")
                        (map fst (dependency_items (Some pk) (zip fields vs))))%list in
    let vals := (map snd (scalar_items (Some pk) (zip fields vs)) ++ pvs ++ pks)%list in
    journal db' =
      (journal db2 ++ [(if u then SqlUpdate (_table_name type_) cols pk
                        else SqlInsert (_table_name type_) cols,
                        if u then vals ++ [pkvalue] else vals)])%list.
Proof.
  intros Hpk Hf Hv Hrun.
  rewrite insert_or_update_unfold in Hrun.
  destruct (readonly db); [discriminate|].
  unfold primary_key_name in Hrun. simpl type_of in Hrun.
  rewrite Hpk, Hf, Hv in Hrun.
  change (table_name (PTuple type_ vs)) with (_table_name type_) in Hrun.
  unfold persist_record in Hrun. rewrite bind_run in Hrun.
  destruct (decide_update (_table_name type_) pk pkvalue check db)
    as [[[[u pcs] pvs]|e] db1] eqn:Hd; [|discriminate].
  cbv beta iota in Hrun. rewrite bind_run, persist_dependencies_all in Hrun.
  destruct (persist_all reg check _ db1) as [[pks|e] db2] eqn:Hp; [|discriminate].
  cbv beta iota in Hrun.
  destruct u as [u|]; [|discriminate].
  exists u, pcs, pvs, db1, pks, db2.
  split; [reflexivity|]. split; [exact Hp|].
  cbv zeta. now apply issue_statement_journal with key.
Qed.

(** X14: a record without nested records, whose key is set and whose existence
    check has answered [False]: the persist sends an [INSERT] that leaves
    the key column out, and persisting the same record again sends the
    same [INSERT] again, whatever the store has done with the first. *)
Lemma persist_again_inserts_again type_ vs pk fields pkvalue (db db1 : DB S) :
  readonly db = false ->
  _primary_key_name reg type_ = Ret (Some pk) ->
  _fields type_ = Some fields ->
  getattr fields vs pk = Some pkvalue ->
  is_none pkvalue = false ->
  dependency_items (Some pk) (zip fields vs) = [] ->
  _contains (_table_name type_) pk pkvalue db = (Ret false, db1) ->
  let ins := (SqlInsert (_table_name type_) (map fst (scalar_items (Some pk) (zip fields vs))),
              map snd (scalar_items (Some pk) (zip fields vs))) in
  let db' := snd (insert_or_update reg (PTuple type_ vs) true db) in
  let db'' := snd (insert_or_update reg (PTuple type_ vs) true db') in
  journal db' = (journal db1 ++ [ins])%list /\
  journal db'' = (journal db' ++ [ins])%list.
Proof.
  intros Hro Hpk Hf Hv Hnn Hflat Hc. cbv zeta.
  assert (forall d d1 : DB S,
            readonly d = false ->
            _contains (_table_name type_) pk pkvalue d = (Ret false, d1) ->
            snd (insert_or_update reg (PTuple type_ vs) true d)
            = snd (conn_execute
                     (SqlInsert (_table_name type_)
                        (map fst (scalar_items (Some pk) (zip fields vs))))
                     (map snd (scalar_items (Some pk) (zip fields vs))) d1)) as Hone.
  { intros d d1 Hrod Hcd. rewrite insert_or_update_unfold, Hrod.
    unfold primary_key_name. simpl type_of. rewrite Hpk, Hf, Hv.
    change (table_name (PTuple type_ vs)) with (_table_name type_).
    unfold persist_record. rewrite bind_run.
    unfold decide_update. rewrite Hnn.
    change (negb false && true) with true. cbv iota.
    rewrite bind_run, Hcd. unfold ret at 1. cbv beta iota.
    rewrite bind_run, persist_dependencies_all, Hflat.
    simpl persist_all. unfold ret at 1. cbv beta iota.
    simpl map. rewrite !app_nil_r.
    unfold issue_statement. rewrite bind_run.
    destruct (conn_execute _ _ d1) as [[cur|e] d2]; reflexivity. }
  rewrite (Hone db db1 Hro Hc).
  set (stmt := SqlInsert _ _). set (vals := map snd _).
  split; [apply conn_execute_journal|].
  pose proof (contains_ret_cached _ _ _ _ _ _ Hc) as Hpos.
  rewrite <- (conn_execute_cache stmt vals db1) in Hpos.
  destruct (contains_hit _ _ _ _ _ _ Hpos) as [c' Hhit].
  assert (readonly (snd (conn_execute stmt vals db1)) = false) as Hro'.
  { unfold conn_execute. destruct (execute (conn db1) stmt vals). simpl.
    revert Hc. unfold _contains, lru_hit.
    destruct (lru_take ckey_eqb _ (contains_cache db)) as [[w r]|].
    - intros [= _ <-]. exact Hro.
    - unfold _contains_query, conn_execute. rewrite bind_run.
      destruct (execute (conn db) _ _) as [[cur|e] s']; [|discriminate].
      intros [= _ <-]. exact Hro. }
  rewrite (Hone _ _ Hro' Hhit).
  rewrite conn_execute_journal. reflexivity.
Qed.
End OrderFacts.

(** ** Instances on the in-memory store *)

Lemma insert_or_update_readonly_rejected_witness :
  DB_init schema_store true = Ret readonly_db /\
  insert_or_update schema_registry mit_unset_country true readonly_db
  = (Raise ValueError, readonly_db).
Proof.
  split; [reflexivity|].
  apply (insert_or_update_readonly_rejected schema_registry mit_unset_country true
           readonly_db).
  reflexivity.
Defined.

Lemma insert_or_update_unset_pk_fails_witness :
  (exists e, fst (insert_or_update schema_registry france_unset true fresh_db) = Raise e) /\
  (readonly fresh_db = false ->
   dependency_items (Some "country_id")
     (zip ["country_id"; "country_name"] [PNone; PStr "France"]) = [] ->
   insert_or_update schema_registry france_unset true fresh_db
   = (Raise UnboundLocalError, fresh_db)).
Proof.
  apply (insert_or_update_unset_pk_fails schema_registry Country
           [PNone; PStr "France"] "country_id" ["country_id"; "country_name"]
           true fresh_db).
  - vm_compute. reflexivity.
  - reflexivity.
  - reflexivity.
Defined.

Lemma insert_or_update_without_pk_field_fails_witness :
  _primary_key_name note_registry Note = Ret None /\
  insert_or_update note_registry a_note true (open_db note_store)
  = (Raise TypeError, open_db note_store).
Proof.
  split; [vm_compute; reflexivity|].
  apply (insert_or_update_without_pk_field_fails note_registry Note
           [PStr "see also"] ["text"] true (open_db note_store)).
  - reflexivity.
  - vm_compute. reflexivity.
  - reflexivity.
Defined.

Lemma insert_or_update_unset_dependency_fails_witness :
  exists e, fst (insert_or_update schema_registry mit_unset_country true fresh_db) = Raise e.
Proof.
  apply (insert_or_update_unset_dependency_fails schema_registry University
           [PInt 1; PStr "MIT"; PTuple Country [PNone; PStr "US"]]
           "university_id" ["university_id"; "university_name"; "country"] (PInt 1)
           "country" Country [PNone; PStr "US"] "country_id"
           ["country_id"; "country_name"] true fresh_db).
  - vm_compute. reflexivity.
  - reflexivity.
  - reflexivity.
  - vm_compute. left. reflexivity.
  - vm_compute. reflexivity.
  - reflexivity.
  - reflexivity.
Defined.

(** The failing run of the dependency ordering: only the existence check
    of the university has reached the store, and both tables stay empty. *)
Example unset_dependency_run :
  let '(r, db') := insert_or_update schema_registry mit_unset_country true fresh_db in
  r = Raise UnboundLocalError /\
  journal db' = [(SqlSelectKey "university_id" "university", [PInt 1])] /\
  (MemStore.rows <$> conn db' !! "university") = Some [] /\
  (MemStore.rows <$> conn db' !! "country") = Some [].
Proof. vm_compute. repeat split; reflexivity. Qed.

Lemma get_after_persist_returns_no_record_witness :
  insert_or_update schema_registry web_source_1 true fresh_db
  = (Ret (PInt 1), snd (insert_or_update schema_registry web_source_1 true fresh_db)) /\
  returns_record
    (fst (get schema_registry reject_iso reject_iso WebSource (PInt 1)
            (snd (insert_or_update schema_registry web_source_1 true fresh_db))))
  = false.
Proof.
  split; [vm_compute; reflexivity|].
  apply (get_after_persist_returns_no_record schema_registry reject_iso reject_iso
           web_source_1 true (PInt 1) fresh_db
           (snd (insert_or_update schema_registry web_source_1 true fresh_db))).
  - vm_compute. reflexivity.
  - vm_compute. reflexivity.
Defined.

Lemma contains_true_stays_true_within_bound_witness :
  fst (_contains "country" "country_id" (PInt 3)
         (out_of_band (fun _ => schema_store)
            (later_checks [(fun _ => schema_store, country_key 4)]
               (snd (_contains "country" "country_id" (PInt 3)
                       (open_db store_with_france))))))
  = Ret true.
Proof.
  apply (contains_true_stays_true_within_bound "country" "country_id" (PInt 3)
           (open_db store_with_france)
           (snd (_contains "country" "country_id" (PInt 3)
                   (open_db store_with_france)))
           [(fun _ => schema_store, country_key 4)] (fun _ => schema_store)).
  - vm_compute. reflexivity.
  - vm_compute. reflexivity.
Defined.


(** With both primary keys set and neither row in the store, the country
    is inserted before the university, and the university's [country_id]
    is bound to the rowid that the insert of the country returned. *)
Example set_dependency_run :
  let '(r, db') := insert_or_update schema_registry mit_in_us true fresh_db in
  r = Ret (PInt 1) /\
  journal db' =
    [ (SqlSelectKey "university_id" "university", [PInt 1]);
      (SqlSelectKey "country_id" "country", [PInt 3]);
      (SqlInsert "country" ["country_name"], [PStr "US"]);
      (SqlInsert "university" ["university_name"; "country_id"], [PStr "MIT"; PInt 1]) ].
Proof. vm_compute. split; reflexivity. Qed.

(** * Further properties *)

(** ** Table names *)

Lemma upper_not_lower c : is_upper c = true -> is_lower c = false.
Proof.
  unfold is_upper, is_lower. intros Hu.
  apply andb_true_iff in Hu as [_ Hu]. apply Nat.leb_le in Hu.
  apply andb_false_iff. left. apply Nat.leb_gt. lia.
Qed.

Lemma lower_ascii_lower c :
  is_upper c = true \/ is_lower c = true -> is_lower (lower_ascii c) = true.
Proof.
  unfold lower_ascii. intros [Hu | Hl].
  - rewrite Hu. unfold is_upper in Hu. unfold is_lower.
    apply andb_true_iff in Hu as [H1 H2].
    apply Nat.leb_le in H1. apply Nat.leb_le in H2.
    rewrite nat_ascii_embedding by lia.
    apply andb_true_iff. split; apply Nat.leb_le; lia.
  - destruct (is_upper c) eqn:Hu; [|exact Hl].
    apply upper_not_lower in Hu. congruence.
Qed.

Lemma string_rev_app_push l w acc :
  string_rev_app (push_chars l w) acc = string_rev_app w (l ++ acc).
Proof.
  revert w. induction l as [|d l IH]; intros w; [reflexivity|].
  simpl push_chars. rewrite IH. reflexivity.
Qed.

Lemma push_chars_two l x y w :
  exists c1 c2 w', push_chars l (x :: y :: w) = c1 :: c2 :: w'.
Proof.
  revert x y w. induction l as [|d l IH]; intros x y w; simpl; eauto.
Qed.

(** Reading the lower-case letters [l] extends the match in progress. *)
Lemma findall_words_lower l : forall w t,
  string_forall is_lower l = true ->
  findall_words (Some w) (l ++ t) = findall_words (Some (push_chars l w)) t.
Proof.
  induction l as [|d l IH]; intros w t Hl; [reflexivity|].
  simpl in Hl. apply andb_true_iff in Hl as [Hd Hl].
  simpl. rewrite Hd. now apply IH.
Qed.


Lemma string_app_nil_r (s : string) : s ++ "" = s.
Proof.
  induction s as [|c s IH]; [reflexivity|].
  change (String c (s ++ "") = String c s). now rewrite IH.
Qed.

Lemma findall_words_next_word ws : forall c l,
  Forall (fun w => is_capitalised w = true) ws ->
  findall_words (Some (push_chars l [c])) (concat_words ws)
  = (flush_word (Some (push_chars l [c])) ++ ws)%list.
Proof.
  induction ws as [|w ws IH]; intros c l Hws.
  - simpl. now rewrite app_nil_r.
  - inversion Hws as [|? ? Hw Hrest]; subst.
    destruct w as [|c' [|d' r']]; try discriminate.
    simpl in Hw. apply andb_true_iff in Hw as [Hw Hr].
    apply andb_true_iff in Hw as [Hc Hd].
    change (concat_words (String c' (String d' r') :: ws))
      with (String c' (String d' r' ++ concat_words ws)).
    cbn [findall_words]. rewrite (upper_not_lower c' Hc), Hc.
    f_equal.
    rewrite (findall_words_lower (String d' r') [c']) by (simpl; now rewrite Hd, Hr).
    rewrite (IH c' (String d' r') Hrest).
    destruct (push_chars_two r' d' c' []) as [c1 [c2 [w' Hp]]].
    simpl push_chars. rewrite Hp. cbn [flush_word]. rewrite <- Hp.
    change (push_chars r' [d'; c']) with (push_chars (String d' r') [c']).
    rewrite string_rev_app_push. simpl. now rewrite string_app_nil_r.
Qed.

Lemma findall_words_of_words ws :
  Forall (fun w => is_capitalised w = true) ws ->
  findall_words None (concat_words ws) = ws.
Proof.
  intros Hws. destruct ws as [|w ws]; [reflexivity|].
  pose proof (findall_words_next_word (w :: ws) "A"%char "" Hws) as Hn.
  inversion Hws as [|? ? Hw Hrest]; subst.
  destruct w as [|c' [|d' r']]; try discriminate.
  pose proof Hw as Hw'. simpl in Hw'. apply andb_true_iff in Hw' as [Hw' _].
  apply andb_true_iff in Hw' as [Hc _].
  revert Hn.
  change (concat_words (String c' (String d' r') :: ws))
    with (String c' (String d' r' ++ concat_words ws)).
  cbn [findall_words push_chars flush_word app].
  rewrite (upper_not_lower c' Hc), Hc. simpl. trivial.
Qed.

(** X1: a class name made of capitalised words gives the lower-cased words
    joined by underscores. *)
Theorem table_name_of_camel_case (ws : list string) (fts : list (string * pytype)) :
  Forall (fun w => is_capitalised w = true) ws ->
  _table_name (TNamedTuple (concat_words ws) fts)
  = String.concat "_" (map str_lower ws).
Proof.
  intros Hws. unfold _table_name. simpl type_name.
  now rewrite findall_words_of_words.
Qed.

Lemma push_chars_snoc l ch w :
  push_chars (l ++ String ch "") w = ch :: push_chars l w.
Proof.
  revert w. induction l as [|d l IH]; intros w; [reflexivity|].
  simpl. apply IH.
Qed.

Lemma string_forall_app p s1 s2 :
  string_forall p (s1 ++ s2) = string_forall p s1 && string_forall p s2.
Proof.
  induction s1 as [|c s1 IH]; [reflexivity|].
  simpl. rewrite IH. now rewrite andb_assoc.
Qed.

Lemma flush_word_capitalised c l :
  is_upper c = true -> string_forall is_lower l = true ->
  Forall (fun w => is_capitalised w = true) (flush_word (Some (push_chars l [c]))).
Proof.
  intros Hc Hl. destruct l as [|d l']; [constructor|].
  destruct (push_chars_two l' d c []) as [c1 [c2 [w' Hp]]].
  simpl push_chars. rewrite Hp. cbn [flush_word]. rewrite <- Hp.
  change (push_chars l' [d; c]) with (push_chars (String d l') [c]).
  rewrite string_rev_app_push. simpl app. rewrite string_app_nil_r.
  constructor; [|constructor].
  simpl in Hl |- *. apply andb_true_iff in Hl as [Hd Hl]. now rewrite Hc, Hd, Hl.
Qed.

(** Every string that the scan returns is a full match of the pattern. *)
Lemma findall_words_capitalised s : forall cur,
  match cur with
  | None => True
  | Some w => exists c l, w = push_chars l [c] /\ is_upper c = true
                          /\ string_forall is_lower l = true
  end ->
  Forall (fun w => is_capitalised w = true) (findall_words cur s).
Proof.
  assert (forall ch : ascii,
            match (if is_upper ch then Some [ch] else None) with
            | None => True
            | Some w => exists c l, w = push_chars l [c] /\ is_upper c = true
                                    /\ string_forall is_lower l = true
            end) as Hstart.
  { intros ch. destruct (is_upper ch) eqn:E; [|exact I].
    exists ch, "". repeat split. exact E. }
  induction s as [|ch s IH]; intros cur Hcur.
  - destruct cur as [w|]; [|constructor].
    destruct Hcur as [c [l [-> [Hc Hl]]]]. now apply flush_word_capitalised.
  - destruct cur as [w|]; cbn [findall_words].
    + destruct Hcur as [c [l [-> [Hc Hl]]]].
      destruct (is_lower ch) eqn:Hch.
      * apply IH. exists c, (l ++ String ch ""). split; [|split].
        -- now rewrite push_chars_snoc.
        -- exact Hc.
        -- rewrite string_forall_app, Hl. simpl. now rewrite Hch.
      * apply Forall_app. split; [now apply flush_word_capitalised|].
        apply IH, Hstart.
    + apply IH, Hstart.
Qed.

Lemma str_lower_capitalised w :
  is_capitalised w = true -> string_forall is_table_char (str_lower w) = true.
Proof.
  destruct w as [|c [|d r]]; try discriminate.
  simpl. intros Hw. apply andb_true_iff in Hw as [Hw Hr].
  apply andb_true_iff in Hw as [Hc Hd].
  unfold is_table_char.
  rewrite (lower_ascii_lower c (or_introl Hc)), (lower_ascii_lower d (or_intror Hd)).
  simpl. clear Hc Hd c d.
  induction r as [|e r IH]; [reflexivity|].
  simpl in Hr |- *. apply andb_true_iff in Hr as [He Hr].
  now rewrite (lower_ascii_lower e (or_intror He)), IH.
Qed.

Lemma concat_table_chars ws :
  Forall (fun w => string_forall is_table_char w = true) ws ->
  string_forall is_table_char (String.concat "_" ws) = true.
Proof.
  induction 1 as [|w ws Hw Hws IH]; [reflexivity|].
  destruct ws as [|w' ws']; [exact Hw|].
  change (String.concat "_" (w :: w' :: ws'))
    with (w ++ "_" ++ String.concat "_" (w' :: ws')).
  rewrite !string_forall_app, Hw, IH. reflexivity.
Qed.

(** X2: a table name holds lower-case letters and underscores only. *)
Theorem table_name_alphabet (ty : pytype) :
  string_forall is_table_char (_table_name ty) = true.
Proof.
  unfold _table_name. apply concat_table_chars.
  apply Forall_map.
  eapply Forall_impl; [apply findall_words_capitalised; exact I|].
  intros w Hw. now apply str_lower_capitalised.
Qed.


(** ** Registrations and their lookups *)

Lemma str_in_In x l : str_in x l = true <-> In x l.
Proof.
  unfold str_in. rewrite existsb_exists. split.
  - intros [y [Hy He]]. apply String.eqb_eq in He. now subst.
  - intros Hx. exists x. split; [exact Hx | apply String.eqb_refl].
Qed.




(** ** Conversion of column values *)

Section ConvertFacts.
Variables date_parse datetime_parse : string -> outcome pyval.

(** X6: for a field type other than [date] and [datetime] the column value
    is returned as it is, of whatever type it is: nothing is coerced and
    nothing is rejected. *)
Theorem convert_sql_result_value_lenient (value : pyval) (ty : pytype) :
  ty <> TDate -> ty <> TDatetime ->
  convert_sql_result_value date_parse datetime_parse value ty = Ret value.
Proof.
  intros Hd Ht. unfold convert_sql_result_value.
  destruct (isinstance value ty); [reflexivity|].
  destruct ty; try reflexivity; congruence.
Qed.

(** X7: for a [date] or [datetime] field, a column value that is neither of
    the field's type nor a string raises [TypeError]; so does the NULL of
    an unset date. *)
Theorem convert_sql_result_value_rejects_non_string (value : pyval) (ty : pytype) :
  ty = TDate \/ ty = TDatetime ->
  isinstance value ty = false ->
  (forall s, value <> PStr s) ->
  convert_sql_result_value date_parse datetime_parse value ty = Raise TypeError.
Proof.
  intros Hty Hinst Hstr. unfold convert_sql_result_value. rewrite Hinst.
  destruct Hty as [-> | ->]; simpl; destruct value; try reflexivity;
    exfalso; eapply Hstr; reflexivity.
Qed.
End ConvertFacts.
(** ** The read path, unfolded *)

Section GetFacts.
Context {S : Type} `{Connection S}.
Variable reg : Registry.
Variables date_parse datetime_parse : string -> outcome pyval.

Lemma get_unfold name fts pkvalue :
  get reg date_parse datetime_parse (TNamedTuple name fts) pkvalue =
  bind (lift (_primary_key_name reg (TNamedTuple name fts))) (fun pkname =>
  bind (conn_execute (SqlSelectRow (map fst fts) (_table_name (TNamedTuple name fts)) pkname)
                     [pkvalue]) (fun cur =>
  match fetchone cur with
  | None => ret None
  | Some row =>
      bind (lift (_foreign_key_names reg (TNamedTuple name fts))) (fun fknames =>
      bind (fill_kwargs reg date_parse datetime_parse fts fknames
              (zip (description cur) row) []) (fun kwargs =>
      bind (lift (construct (TNamedTuple name fts) kwargs)) (fun r =>
      ret (Some r))))
  end)).
Proof. reflexivity. Qed.

End GetFacts.

(** ** The statements of a run *)

Section SendsFacts.
Context {S : Type} `{Connection S}.
Variable Q : statement * list pyval -> bool.
Variable W : statement -> bool.

Lemma sends_same {A} (m : M S A) (db : DB S) n :
  journal (snd (m db)) = journal db -> sends Q W n m db.
Proof.
  intros Hj. exists []. rewrite Hj, app_nil_r. repeat split. simpl. lia.
Qed.

Lemma sends_weaken {A} (m : M S A) (db : DB S) n n' :
  (n <= n')%nat -> sends Q W n m db -> sends Q W n' m db.
Proof. intros Hle [l [H1 [H2 H3]]]. exists l. repeat split; auto. lia. Qed.

Lemma sends_bind {A B} (m : M S A) (f : A -> M S B) (db : DB S) n1 n2 :
  sends Q W n1 m db ->
  (forall a db', m db = (Ret a, db') -> sends Q W n2 (f a) db') ->
  sends Q W (n1 + n2) (bind m f) db.
Proof.
  intros [l1 [Hj1 [Hq1 Hn1]]] Hf. unfold sends. rewrite bind_run.
  destruct (m db) as [[a|e] db1] eqn:Hm; simpl in Hj1.
  - destruct (Hf a db1 eq_refl) as [l2 [Hj2 [Hq2 Hn2]]].
    exists (l1 ++ l2)%list. rewrite Hj2, Hj1, <- app_assoc.
    split; [reflexivity|]. split.
    + rewrite forallb_app, Hq1, Hq2. reflexivity.
    + rewrite List.filter_app, length_app. lia.
  - exists l1. split; [exact Hj1|]. split; [exact Hq1 | lia].
Qed.

Lemma sends_conn_execute st ps (db : DB S) :
  Q (st, ps) = true ->
  sends Q W (if W st then 1 else 0) (conn_execute st ps) db.
Proof.
  intros Hq. exists [(st, ps)]. rewrite conn_execute_journal.
  split; [reflexivity|]. split; [simpl; now rewrite Hq|].
  simpl. destruct (W st); simpl; lia.
Qed.

Lemma journal_set_cache c (db : DB S) : journal (set_cache c db) = journal db.
Proof. reflexivity. Qed.

Lemma sends_contains t p v (db : DB S) :
  Q (SqlSelectKey p t, [v]) = true ->
  sends Q W (if W (SqlSelectKey p t) then 1 else 0) (_contains t p v) db.
Proof.
  intros Hq. unfold _contains.
  destruct (lru_hit ckey_eqb (t, p, v) (contains_cache db)) as [[b c']|] eqn:Hh.
  - apply sends_same. unfold sends. now rewrite Hh.
  - assert (sends Q W (if W (SqlSelectKey p t) then 1 else 0)
              (_contains_query t p v) db) as [l [Hj [Hq' Hn]]].
    { unfold _contains_query.
      replace (if W (SqlSelectKey p t) then 1 else 0)%nat
        with ((if W (SqlSelectKey p t) then 1 else 0) + 0)%nat by lia.
      apply sends_bind; [now apply sends_conn_execute|].
      intros cur db' _. apply sends_same. reflexivity. }
    exists l. unfold sends. rewrite Hh.
    destruct (_contains_query t p v db) as [[b|e] db1]; simpl in Hj |- *;
      repeat split; auto.
Qed.
End SendsFacts.

Section PersistSends.
Context {S : Type} `{Connection S}.
Variable reg : Registry.
Variable W : statement -> bool.
Variables a b : nat.
Hypothesis W_select : forall p t, W (SqlSelectKey p t) = true -> (1 <= a)%nat.
Hypothesis W_write : forall st, is_write st = true -> W st = true -> (1 <= b)%nat.

Lemma decide_update_lengths t pk pkvalue check (db db' : DB S) u pcs pvs :
  decide_update t pk pkvalue check db = (Ret (u, pcs, pvs), db') ->
  length pcs = length pvs.
Proof.
  unfold decide_update. destruct (negb (is_none pkvalue) && check).
  - rewrite bind_run. destruct (_contains t pk pkvalue db) as [[x|e] d]; [|discriminate].
    now intros [= _ <- <- _].
  - destruct (negb (is_none pkvalue)); now intros [= _ <- <- _].
Qed.

Lemma persist_all_length check deps : forall (db db' : DB S) pks,
  persist_all reg check deps db = (Ret pks, db') -> length pks = length deps.
Proof.
  induction deps as [|d deps IH]; intros db db' pks; simpl.
  - now intros [= <- _].
  - rewrite bind_run.
    destruct (insert_or_update reg d check db) as [[k|e] db1]; [|discriminate].
    rewrite bind_run.
    destruct (persist_all reg check deps db1) as [[ks|e] db2] eqn:Hr; [|discriminate].
    intros [= <- _]. simpl. f_equal. eauto.
Qed.

Lemma sends_decide_update t pk pkvalue check (db : DB S) :
  sends persist_statement_ok W a (decide_update t pk pkvalue check) db.
Proof.
  unfold decide_update. destruct (negb (is_none pkvalue) && check).
  - replace a with (a + 0)%nat by lia. apply sends_bind.
    + eapply sends_weaken; [|apply sends_contains; reflexivity].
      destruct (W (SqlSelectKey pk t)) eqn:E; [eauto | lia].
    + intros x db' _. now apply sends_same.
  - destruct (negb (is_none pkvalue)); now apply sends_same.
Qed.

Lemma sends_issue_statement t pk pkvalue update cols vals (db : DB S) :
  length vals = length cols ->
  sends persist_statement_ok W b (issue_statement t pk pkvalue update cols vals) db.
Proof.
  intros Hlen. unfold issue_statement. destruct update as [[|]|].
  - replace b with (b + 0)%nat by lia. apply sends_bind.
    + eapply sends_weaken; [|apply sends_conn_execute].
      * destruct (W (SqlUpdate t cols pk)) eqn:E; [|lia].
        now apply (W_write (SqlUpdate t cols pk)).
      * simpl. rewrite length_app, Hlen. simpl. apply Nat.eqb_eq. lia.
    + intros x db' _. now apply sends_same.
  - replace b with (b + 0)%nat by lia. apply sends_bind.
    + eapply sends_weaken; [|apply sends_conn_execute].
      * destruct (W (SqlInsert t cols)) eqn:E; [|lia].
        now apply (W_write (SqlInsert t cols)).
      * simpl. apply Nat.eqb_eq. exact Hlen.
    + intros x db' _. now apply sends_same.
  - now apply sends_same.
Qed.

Lemma sends_persist_dependencies pkname check ws :
  Forall (fun w => forall c (db : DB S),
            sends persist_statement_ok W ((a + b) * record_count w)
                  (insert_or_update reg w c) db) ws ->
  forall cs (db : DB S),
    sends persist_statement_ok W ((a + b) * records_in ws)
          (persist_dependencies reg pkname check cs ws) db.
Proof.
  induction 1 as [|w ws Hw _ IH]; intros [|c cs] db; simpl;
    try (now apply sends_same).
  destruct (negb (is_pk pkname c) && is_tuple w).
  - rewrite Nat.mul_add_distr_l. apply sends_bind; [apply Hw|].
    intros k db1 _.
    replace ((a + b) * records_in ws)%nat with ((a + b) * records_in ws + 0)%nat by lia.
    apply sends_bind; [apply IH|]. intros ks db2 _. now apply sends_same.
  - eapply sends_weaken; [|apply IH]. unfold records_in. simpl. lia.
Qed.

Lemma sends_persist_record t pk pkvalue fields vs check (db : DB S) :
  Forall (fun w => forall c (db : DB S),
            sends persist_statement_ok W ((a + b) * record_count w)
                  (insert_or_update reg w c) db) vs ->
  sends persist_statement_ok W ((a + b) * Datatypes.S (records_in vs))
        (persist_record reg t pk pkvalue fields vs check) db.
Proof.
  intros Hvs. unfold persist_record.
  replace ((a + b) * Datatypes.S (records_in vs))%nat
    with (a + ((a + b) * records_in vs + b))%nat by lia.
  apply sends_bind; [apply sends_decide_update|].
  intros [[u pcs] pvs] db1 Hd. apply decide_update_lengths in Hd.
  apply sends_bind; [now apply sends_persist_dependencies|].
  intros pks db2 Hp. rewrite persist_dependencies_all in Hp.
  apply persist_all_length in Hp. rewrite length_map in Hp.
  apply sends_issue_statement.
  rewrite !length_app, !length_map, Hd, Hp. reflexivity.
Qed.

Lemma sends_insert_or_update value :
  forall check (db : DB S),
    sends persist_statement_ok W ((a + b) * record_count value)
          (insert_or_update reg value check) db.
Proof.
  induction value as [ | z | s | o | o u | type_ vs IH] using pyval_ind_nested;
    intros check db.
  1-5: (apply sends_same; rewrite insert_or_update_unfold;
        destruct (readonly db); [reflexivity|];
        destruct (primary_key_name reg _) as [?|?]; reflexivity).
  pose proof (sends_persist_record (table_name (PTuple type_ vs))) as Hrec.
  unfold sends in Hrec |- *. rewrite insert_or_update_unfold.
  destruct (readonly db); [now apply (sends_same _ _ (ret tt) db)|].
  destruct (primary_key_name reg (PTuple type_ vs)) as [[pk|]|e];
    [| | now apply (sends_same _ _ (ret tt) db)];
    (destruct (_fields type_) as [fields|]; [|now apply (sends_same _ _ (ret tt) db)]);
    [|now apply (sends_same _ _ (ret tt) db)].
  destruct (getattr fields vs pk) as [pkvalue|];
    [|now apply (sends_same _ _ (ret tt) db)].
  exact (Hrec pk pkvalue fields vs check db IH).
Qed.
End PersistSends.

(** X8: one call of [insert_or_update] only appends to what the connection
    has been sent: at most two statements for each NamedTuple instance in
    the value, of which at most one is an existence query and at most one
    an [INSERT] or [UPDATE]. *)
Theorem insert_or_update_statement_bound {S : Type} `{Connection S}
    (reg : Registry) (value : pyval) (check : bool) (db : DB S) :
  exists l,
    journal (snd (insert_or_update reg value check db)) = (journal db ++ l)%list /\
    (length l <= 2 * record_count value)%nat /\
    (length (List.filter (fun e => is_key_select (fst e)) l) <= record_count value)%nat /\
    (length (List.filter (fun e => is_write (fst e)) l) <= record_count value)%nat.
Proof.
  destruct (sends_insert_or_update reg (fun _ => true) 1 1) with
    (value := value) (check := check) (db := db) as [l [Hj [_ Hall]]]; [lia | lia |].
  destruct (sends_insert_or_update reg is_key_select 1 0) with
    (value := value) (check := check) (db := db) as [l1 [Hj1 [_ Hsel]]];
    [lia | intros [] ; discriminate |].
  destruct (sends_insert_or_update reg is_write 0 1) with
    (value := value) (check := check) (db := db) as [l2 [Hj2 [_ Hwr]]];
    [discriminate | lia |].
  rewrite Hj in Hj1, Hj2.
  apply app_inv_head in Hj1. apply app_inv_head in Hj2. subst l1 l2.
  exists l. split; [exact Hj|].
  rewrite (List.forallb_filter_id (fun _ => true)) in Hall
    by (clear; induction l; simpl; auto).
  repeat split; lia.
Qed.

(** X9: every statement that [insert_or_update] sends is an existence
    query, an [INSERT] or an [UPDATE], and carries exactly as many parameters
    as it has placeholders. *)
Theorem insert_or_update_parameters_match {S : Type} `{Connection S}
    (reg : Registry) (value : pyval) (check : bool) (db : DB S) :
  exists l,
    journal (snd (insert_or_update reg value check db)) = (journal db ++ l)%list /\
    forallb persist_statement_ok l = true.
Proof.
  destruct (sends_insert_or_update reg (fun _ => true) 1 1) with
    (value := value) (check := check) (db := db) as [l [Hj [Hok _]]]; [lia | lia |].
  exists l. now split.
Qed.
(** ** Invariants of the engine state *)


Section PreservesFacts.
Context {S : Type} `{Connection S}.
Variable P : DB S -> Prop.

Lemma preserves_same {A} (m : M S A) :
  (forall db, snd (m db) = db) -> preserves P m.
Proof. intros Hm db Hp. now rewrite Hm. Qed.

Lemma preserves_bind {A B} (m : M S A) (f : A -> M S B) :
  preserves P m -> (forall a, preserves P (f a)) -> preserves P (bind m f).
Proof.
  intros Hm Hf db Hp. rewrite bind_run. specialize (Hm db Hp).
  destruct (m db) as [[a|e] db1]; simpl in Hm |- *; [now apply Hf | exact Hm].
Qed.

Section Write.
Variable reg : Registry.
Hypothesis P_contains : forall t p v, preserves P (_contains t p v).
Hypothesis P_execute : forall st ps, is_write st = true -> preserves P (conn_execute st ps).

Lemma preserves_persist_dependencies pkname check ws :
  Forall (fun w => forall c, preserves P (insert_or_update reg w c)) ws ->
  forall cs, preserves P (persist_dependencies reg pkname check cs ws).
Proof.
  induction 1 as [|w ws Hw _ IH]; intros [|c cs]; simpl;
    try (now apply preserves_same).
  destruct (negb (is_pk pkname c) && is_tuple w); [|apply IH].
  apply preserves_bind; [apply Hw|]. intros k.
  apply preserves_bind; [apply IH|]. intros ks. now apply preserves_same.
Qed.

Lemma preserves_insert_or_update value :
  forall check, preserves P (insert_or_update reg value check).
Proof.
  induction value as [ | z | s | o | o u | type_ vs IH] using pyval_ind_nested;
    intros check.
  1-5: (apply preserves_same; intros db; rewrite insert_or_update_unfold;
        destruct (readonly db); [reflexivity|];
        destruct (primary_key_name reg _) as [?|?]; reflexivity).
  intros db Hp. rewrite insert_or_update_unfold.
  destruct (readonly db); [exact Hp|].
  destruct (primary_key_name reg (PTuple type_ vs)) as [[pk|]|e];
    [| | exact Hp];
    (destruct (_fields type_) as [fields|]; [|exact Hp]); [|exact Hp].
  destruct (getattr fields vs pk) as [pkvalue|]; [|exact Hp].
  revert db Hp. change (preserves P (persist_record reg (table_name (PTuple type_ vs))
                                       pk pkvalue fields vs check)).
  unfold persist_record. apply preserves_bind.
  - unfold decide_update. destruct (negb (is_none pkvalue) && check).
    + apply preserves_bind; [apply P_contains|]. intros x. now apply preserves_same.
    + destruct (negb (is_none pkvalue)); now apply preserves_same.
  - intros [[u pcs] pvs]. apply preserves_bind.
    + now apply preserves_persist_dependencies.
    + intros pks. unfold issue_statement. destruct u as [[|]|].
      * apply preserves_bind; [now apply P_execute|]. intros x. now apply preserves_same.
      * apply preserves_bind; [now apply P_execute|]. intros x. now apply preserves_same.
      * now apply preserves_same.
Qed.
End Write.

Section Read.
Variable reg : Registry.
Variables date_parse datetime_parse : string -> outcome pyval.
Hypothesis P_select : forall fs t pk ps,
  preserves P (conn_execute (SqlSelectRow fs t pk) ps).



End Read.
End PreservesFacts.

(** ** The size of the memo table *)

Lemma lru_take_length {K V} (keq : K -> K -> bool) k (c r : list (K * V)) v :
  lru_take keq k c = Some (v, r) -> length c = Datatypes.S (length r).
Proof.
  revert r. induction c as [|[k0 v0] c IH]; intros r; simpl; [discriminate|].
  destruct (keq k k0).
  - now intros [= _ <-].
  - destruct (lru_take keq k c) as [[w r']|]; [|discriminate].
    intros [= <- <-]. simpl. f_equal. now apply IH.
Qed.

Lemma lru_store_length {K V} maxsize (k : K) (v : V) c :
  (N.of_nat (length c) <= maxsize)%N ->
  (N.of_nat (length (lru_store maxsize k v c)) <= maxsize)%N.
Proof.
  intros Hc. unfold lru_store.
  destruct (N.eqb_spec maxsize 0); [exact Hc|].
  destruct (N.leb_spec maxsize (N.of_nat (length c))).
  - destruct c as [|e c]; [simpl in *; lia|].
    change (length ((k, v) :: removelast (e :: c)))
      with (Datatypes.S (length (removelast (e :: c)))).
    rewrite removelast_firstn_len, length_firstn. simpl in *. lia.
  - simpl. lia.
Qed.

Lemma contains_within_capacity {S : Type} `{Connection S} t p v :
  preserves (@within_capacity S) (_contains t p v).
Proof.
  intros db Hdb. unfold within_capacity in *. unfold _contains, lru_hit.
  destruct (lru_take ckey_eqb (t, p, v) (contains_cache db)) as [[b r]|] eqn:Ht.
  - apply lru_take_length in Ht. simpl. rewrite Ht in Hdb. simpl. lia.
  - pose proof (contains_query_cache t p v db) as Hc.
    destruct (_contains_query t p v db) as [[b|e] db1]; simpl in Hc |- *.
    + rewrite Hc. now apply lru_store_length.
    + now rewrite Hc.
Qed.

(** X10: the memo table of [_contains] never outgrows the bound given to
    [lru_cache]: if it holds at most 1,000,000 entries before a call of
    [insert_or_update], it does so after the call, whether the call returns
    or raises. *)
Theorem insert_or_update_within_capacity {S : Type} `{Connection S}
    (reg : Registry) (value : pyval) (check : bool) (db : DB S) :
  within_capacity db ->
  within_capacity (snd (insert_or_update reg value check db)).
Proof.
  apply preserves_insert_or_update.
  - intros t p v. apply contains_within_capacity.
  - intros st ps _ d Hd. unfold within_capacity in *.
    now rewrite conn_execute_cache.
Qed.

(** ** What the read path leaves alone *)


(** ** Reading a row back *)

Section GetRow.
Context {S : Type} `{Connection S}.
Variable reg : Registry.
Variables date_parse datetime_parse : string -> outcome pyval.

Lemma lookup_field_type_nodup fts ft :
  NoDup (map fst fts) -> In ft fts ->
  lookup_field_type fts (fst ft) = Some (snd ft).
Proof.
  unfold lookup_field_type. induction fts as [|ft0 fts IH]; intros Hnd Hin; [destruct Hin|].
  simpl in Hnd. apply NoDup_cons in Hnd as [Hnotin Hnd].
  simpl. destruct (String.eqb_spec (fst ft0) (fst ft)) as [Heq|Hne].
  - destruct Hin as [-> | Hin]; [reflexivity|].
    exfalso. apply Hnotin. rewrite Heq. apply list_elem_of_In. now apply in_map.
  - destruct Hin as [-> | Hin]; [congruence|]. now apply IH.
Qed.

Lemma convert_row_length fts : forall row vs,
  length row = length fts ->
  convert_row date_parse datetime_parse fts row = Ret vs -> length vs = length fts.
Proof.
  induction fts as [|ft fts IH]; intros [|v row] vs Hlen; simpl;
    try discriminate; try (now intros [= <-]).
  destruct (convert_sql_result_value _ _ v (snd ft)) as [w|e]; [|discriminate].
  destruct (convert_row _ _ fts row) as [ws|e] eqn:Hr; [|discriminate].
  intros [= <-]. simpl. f_equal. apply (IH row ws); [simpl in Hlen; lia | exact Hr].
Qed.

(** With no column counted as a foreign key, the loop converts each
    column and keeps it under the column's name. *)
Lemma fill_kwargs_flat fts fknames (db : DB S) : forall fts' row vs kwargs,
  (forall ft, In ft fts' -> lookup_field_type fts (fst ft) = Some (snd ft)) ->
  (forall ft, In ft fts' -> fst ft ∉ fknames) ->
  length row = length fts' ->
  convert_row date_parse datetime_parse fts' row = Ret vs ->
  fill_kwargs reg date_parse datetime_parse fts fknames (zip (map fst fts') row) kwargs db
  = (Ret (rev (zip (map fst fts') vs) ++ kwargs)%list, db).
Proof.
  induction fts' as [|ft fts' IH]; intros [|v row] vs kwargs Hlook Hfk Hlen; simpl;
    try discriminate.
  - now intros [= <-].
  - destruct (convert_sql_result_value _ _ v (snd ft)) as [w|e] eqn:Hw; [|discriminate].
    destruct (convert_row _ _ fts' row) as [ws|e] eqn:Hr; [|discriminate].
    intros [= <-].
    rewrite bool_decide_eq_false_2 by (apply Hfk; now left).
    rewrite (Hlook ft) by now left.
    rewrite bind_run. unfold lift at 1. rewrite Hw. cbv beta iota.
    rewrite (IH row ws ((fst ft, w) :: kwargs)).
    + simpl. now rewrite <- app_assoc.
    + intros ft' Hin. apply Hlook. now right.
    + intros ft' Hin. apply Hfk. now right.
    + simpl in Hlen. lia.
    + exact Hr.
Qed.

Lemma find_by_name_nodup (l : list (string * pyval)) f v :
  NoDup (map fst l) -> In (f, v) l ->
  find (fun kv => String.eqb (fst kv) f) l = Some (f, v).
Proof.
  induction l as [|[f0 v0] l IH]; intros Hnd Hin; [destruct Hin|].
  simpl in Hnd. apply NoDup_cons in Hnd as [Hnotin Hnd].
  simpl. destruct (String.eqb_spec f0 f) as [->|Hne].
  - destruct Hin as [[= ->] | Hin]; [reflexivity|].
    exfalso. apply Hnotin. apply list_elem_of_In.
    change f with (fst (f, v)). now apply in_map.
  - destruct Hin as [[= -> _] | Hin]; [congruence|]. now apply IH.
Qed.

Lemma zip_map_fst {A B} (xs : list A) (ys : list B) :
  length xs = length ys -> map fst (zip xs ys) = xs.
Proof.
  revert ys. induction xs as [|x xs IH]; intros [|y ys] Hlen; simpl in *;
    try discriminate; [reflexivity|]. f_equal. apply IH. lia.
Qed.

Lemma zip_map_snd {A B} (xs : list A) (ys : list B) :
  length xs = length ys -> map snd (zip xs ys) = ys.
Proof.
  revert ys. induction xs as [|x xs IH]; intros [|y ys] Hlen; simpl in *;
    try discriminate; [reflexivity|]. f_equal. apply IH. lia.
Qed.

(** The class called with a value for each of its fields, in any order. *)
Lemma construct_all_fields name fts vs :
  NoDup (map fst fts) -> length vs = length fts ->
  construct (TNamedTuple name fts) (rev (zip (map fst fts) vs))
  = Ret (PTuple (TNamedTuple name fts) vs).
Proof.
  intros Hnd Hlen. unfold construct. simpl _fields. cbv beta iota.
  set (l := zip (map fst fts) vs).
  assert (map fst l = map fst fts) as Hfst
    by (apply zip_map_fst; rewrite length_map; lia).
  assert (map snd l = vs) as Hsnd
    by (apply zip_map_snd; rewrite length_map; lia).
  assert (forallb (fun kv => str_in (fst kv) (map fst fts)) (rev l) = true) as ->.
  { apply forallb_forall. intros kv Hkv. apply str_in_In.
    rewrite <- Hfst. apply in_map. now apply in_rev. }
  assert (NoDup (map fst (rev l))) as Hnd'.
  { rewrite map_rev. apply NoDup_ListNoDup, List.NoDup_rev, NoDup_ListNoDup. now rewrite Hfst. }
  assert (mapM (fun f => snd <$> find (fun kv => String.eqb (fst kv) f) (rev l))
               (map fst fts) = Some vs) as ->; [|reflexivity].
  apply mapM_Some. rewrite <- Hfst, <- Hsnd.
  assert (forall kv, In kv l ->
            snd <$> find (fun kv' => String.eqb (fst kv') (fst kv)) (rev l) = Some (snd kv))
    as Hfind.
  { intros [f v] Hin. simpl. rewrite (find_by_name_nodup (rev l) f v Hnd'); [reflexivity|].
    now apply in_rev in Hin. }
  clear -Hfind. set (r := rev l) in *. clearbody r.
  induction l as [|kv l IH]; simpl; constructor.
  - apply Hfind. now left.
  - apply IH. intros kv' Hin. apply Hfind. now right.
Qed.

(** X17: when the store answers the row query with a row that has one value
    for each field, under the field names, and no column name is among the
    foreign-key names of the class, [get] returns the record of the
    converted column values.  A reference field then holds the raw column
    value: no nested record is read. *)
Theorem get_returns_row_as_record (name : string) (fts : list (string * pytype))
    (pkvalue : pyval) (db db1 : DB S) (pkname : option string) (cur : cursor)
    (row vs : list pyval) (fknames : gset string) :
  _primary_key_name reg (TNamedTuple name fts) = Ret pkname ->
  conn_execute (SqlSelectRow (map fst fts) (_table_name (TNamedTuple name fts)) pkname)
               [pkvalue] db = (Ret cur, db1) ->
  fetchone cur = Some row ->
  description cur = map fst fts ->
  length row = length fts ->
  NoDup (map fst fts) ->
  FK_NAMES reg !! name = Some fknames ->
  (forall n, In n (map fst fts) -> n ∉ fknames) ->
  convert_row date_parse datetime_parse fts row = Ret vs ->
  get reg date_parse datetime_parse (TNamedTuple name fts) pkvalue db
  = (Ret (Some (PTuple (TNamedTuple name fts) vs)), db1).
Proof.
  intros Hpk Hex Hrow Hdesc Hlen Hnd Hfk Hnofk Hconv.
  rewrite get_unfold, bind_run. unfold lift at 1. rewrite Hpk. cbv beta iota.
  rewrite bind_run, Hex. cbv beta iota. rewrite Hrow.
  rewrite bind_run. unfold lift at 1, _foreign_key_names. simpl type_name.
  rewrite Hfk. cbv beta iota. rewrite bind_run, Hdesc.
  rewrite (fill_kwargs_flat fts fknames db1 fts row vs []); auto.
  - cbv beta iota. rewrite app_nil_r, bind_run. unfold lift at 1.
    rewrite construct_all_fields; [reflexivity | exact Hnd |].
    now apply (convert_row_length fts row).
  - intros ft Hin. now apply lookup_field_type_nodup.
  - intros ft Hin. apply Hnofk. now apply in_map.
Qed.
End GetRow.
(** ** The branches of the write path *)

Section BranchFacts.
Context {S : Type} `{Connection S}.
Variable reg : Registry.

Lemma issue_statement_result t pk pkvalue (u : bool) cols vals key (db db' : DB S) :
  issue_statement t pk pkvalue (Some u) cols vals db = (Ret key, db') ->
  exists cur s',
    execute (conn db)
      (if u then SqlUpdate t cols pk else SqlInsert t cols)
      (if u then vals ++ [pkvalue] else vals)%list = (Ret cur, s') /\
    key = (if u then pkvalue else lastrowid cur) /\
    conn db' = s'.
Proof.
  unfold issue_statement, conn_execute. destruct u; rewrite bind_run.
  - destruct (execute (conn db) _ _) as [[cur|e] s']; [|discriminate].
    intros [= <- <-]. exists cur, s'. repeat split.
  - destruct (execute (conn db) _ _) as [[cur|e] s']; [|discriminate].
    intros [= <- <-]. exists cur, s'. repeat split.
Qed.

(** X11: when the existence check of a record's key answers [True], the
    call that returns has sent, as its last statement, an [UPDATE] of the
    record's table whose [WHERE] parameter is the record's key, and it
    returns that key itself. *)
Theorem insert_or_update_existing_key_updates (type_ : pytype) (vs : list pyval)
    (pk : string) (fields : list string) (pkvalue key : pyval) (db db1 db' : DB S) :
  _primary_key_name reg type_ = Ret (Some pk) ->
  _fields type_ = Some fields ->
  getattr fields vs pk = Some pkvalue ->
  is_none pkvalue = false ->
  _contains (_table_name type_) pk pkvalue db = (Ret true, db1) ->
  insert_or_update reg (PTuple type_ vs) true db = (Ret key, db') ->
  key = pkvalue /\
  exists cols vals,
    last (journal db') = Some (SqlUpdate (_table_name type_) cols pk, (vals ++ [pkvalue])%list) /\
    length vals = length cols.
Proof.
  intros Hpk Hf Hv Hnn Hc Hrun.
  rewrite insert_or_update_unfold in Hrun.
  destruct (readonly db); [discriminate|].
  unfold primary_key_name in Hrun. simpl type_of in Hrun.
  rewrite Hpk, Hf, Hv in Hrun.
  change (table_name (PTuple type_ vs)) with (_table_name type_) in Hrun.
  unfold persist_record in Hrun. rewrite bind_run in Hrun.
  unfold decide_update in Hrun. rewrite Hnn in Hrun.
  change (negb false && true) with true in Hrun. cbv iota in Hrun.
  rewrite bind_run, Hc in Hrun. unfold ret at 1 in Hrun. cbv beta iota in Hrun.
  rewrite bind_run, persist_dependencies_all in Hrun.
  destruct (persist_all reg true _ db1) as [[pks|e] db2] eqn:Hp; [|discriminate].
  cbv beta iota in Hrun.
  pose proof (issue_statement_journal _ _ _ _ _ _ _ _ _ Hrun) as Hj.
  destruct (issue_statement_result _ _ _ _ _ _ _ _ _ Hrun) as [cur [s' [_ [Hkey _]]]].
  split; [exact Hkey|].
  eexists _, _. split.
  - rewrite Hj. apply last_snoc.
  - apply persist_all_length in Hp. rewrite length_map in Hp.
    rewrite !length_app, !length_map, Hp. reflexivity.
Qed.

(** X12: with [check_if_pk_not_null=False] and the key set, no existence
    query is made for the record: after its dependencies, one [INSERT] is
    sent that binds the key column to the record's key, and the rowid that
    the store reports for it is returned. *)
Theorem insert_or_update_unchecked_inserts_key (type_ : pytype) (vs : list pyval)
    (pk : string) (fields : list string) (pkvalue key : pyval) (db db' : DB S) :
  _primary_key_name reg type_ = Ret (Some pk) ->
  _fields type_ = Some fields ->
  getattr fields vs pk = Some pkvalue ->
  is_none pkvalue = false ->
  insert_or_update reg (PTuple type_ vs) false db = (Ret key, db') ->
  exists pks db2 cur,
    persist_all reg false (map snd (dependency_items (Some pk) (zip fields vs))) db
    = (Ret pks, db2) /\
    let cols := (map fst (scalar_items (Some pk) (zip fields vs)) ++ [pk]
                 ++ map (fun c => c +:+ "_id")
                        (map fst (dependency_items (Some pk) (zip fields vs))))%list in
    let vals := (map snd (scalar_items (Some pk) (zip fields vs)) ++ [pkvalue] ++ pks)%list in
    execute (conn db2) (SqlInsert (_table_name type_) cols) vals = (Ret cur, conn db') /\
    journal db' = (journal db2 ++ [(SqlInsert (_table_name type_) cols, vals)])%list /\
    key = lastrowid cur.
Proof.
  intros Hpk Hf Hv Hnn Hrun.
  rewrite insert_or_update_unfold in Hrun.
  destruct (readonly db); [discriminate|].
  unfold primary_key_name in Hrun. simpl type_of in Hrun.
  rewrite Hpk, Hf, Hv in Hrun.
  change (table_name (PTuple type_ vs)) with (_table_name type_) in Hrun.
  unfold persist_record in Hrun. rewrite bind_run in Hrun.
  unfold decide_update in Hrun. rewrite Hnn in Hrun.
  change (negb false && false) with false in Hrun.
  change (negb false) with true in Hrun. cbv iota in Hrun.
  unfold ret at 1 in Hrun. cbv beta iota in Hrun.
  rewrite bind_run, persist_dependencies_all in Hrun.
  destruct (persist_all reg false _ db) as [[pks|e] db2] eqn:Hp; [|discriminate].
  cbv beta iota in Hrun.
  pose proof (issue_statement_journal _ _ _ _ _ _ _ _ _ Hrun) as Hj.
  destruct (issue_statement_result _ _ _ _ _ _ _ _ _ Hrun) as [cur [s' [Hex [Hkey Hs]]]].
  exists pks, db2, cur. split; [reflexivity|]. cbv zeta.
  rewrite Hs. split; [exact Hex|]. split; [exact Hj | exact Hkey].
Qed.
End BranchFacts.
(** ** Foreign-key columns on the read path *)

Section GetForeignKeys.
Context {S : Type} `{Connection S}.
Variable reg : Registry.
Variables date_parse datetime_parse : string -> outcome pyval.



End GetForeignKeys.
(** ** The classes of [collection/schema.py] *)

(** X19: the import of [schema.py] raises no [NameError], every decorator
    naming fields of its class, and leaves the nine classes with these
    table names and primary key names; a reference field of an alternate
    key is registered under its column name. *)
Theorem schema_module_metadata :
  is_ret schema_module = true /\
  map (fun c => (_table_name c, _primary_key_name schema_py_registry c)) schema_classes
  = [ ("country", Ret (Some "country_id"));
      ("university", Ret (Some "university_id"));
      ("mathematics_subject_classification", Ret (Some "subject_code"));
      ("dissertation", Ret (Some "dissertation_id"));
      ("mathematician", Ret (Some "mathematician_id"));
      ("advisor_relationship", Ret None);
      ("web_source", Ret (Some "web_source_id"));
      ("webpage", Ret (Some "webpage_id"));
      ("math_genealogy_associated_link", Ret None) ] /\
  ALT_PK_NAMES schema_py_registry !! "University"
  = Some ({["university_name"; "country_id"]} : gset string) /\
  ALT_PK_NAMES schema_py_registry !! "Webpage"
  = Some ({["web_source_id"; "path"; "query"]} : gset string) /\
  ALT_PK_NAMES schema_py_registry !! "AdvisorRelationship"
  = Some ({["advisor_id"; "advisee_id"]} : gset string).
Proof. vm_compute. repeat split; reflexivity. Qed.

Lemma insert_or_update_no_key_name {S : Type} `{Connection S} reg type_ vs check
    (db : DB S) :
  _primary_key_name reg type_ = Ret None ->
  readonly db = false ->
  insert_or_update reg (PTuple type_ vs) check db = (Raise TypeError, db).
Proof.
  intros Hpk Hro. rewrite insert_or_update_unfold, Hro.
  unfold primary_key_name. simpl type_of. rewrite Hpk.
  unfold _primary_key_name in Hpk.
  destruct (PK_NAMES reg !! type_name type_); [discriminate|].
  destruct (_fields type_); [reflexivity | discriminate].
Qed.

(** X20: no record of the classes [AdvisorRelationship] and
    [MathGenealogyAssociatedLink] can be persisted: whatever its field
    values and whatever the store, [insert_or_update] on a writable instance
    raises [TypeError] and sends nothing. *)
Theorem schema_classes_without_key_not_persisted {S : Type} `{Connection S}
    (type_ : pytype) (vs : list pyval) (check : bool) (db : DB S) :
  type_ = AdvisorRelationship \/ type_ = MathGenealogyAssociatedLink ->
  readonly db = false ->
  insert_or_update schema_py_registry (PTuple type_ vs) check db = (Raise TypeError, db).
Proof.
  intros Hty Hro. apply insert_or_update_no_key_name; [|exact Hro].
  destruct Hty as [-> | ->]; vm_compute; reflexivity.
Qed.
(** ** A query that raises is not remembered *)

(** X15: when the query of [_contains] raises, the exception is passed on
    and nothing is remembered: the memo table is as before, and the next
    check of the same key sends the query to the store again. *)
Theorem contains_error_not_remembered {S : Type} `{Connection S}
    (t p : string) (v : pyval) (e : pyexn) (db db' : DB S) :
  _contains t p v db = (Raise e, db') ->
  contains_cache db' = contains_cache db /\
  journal db' = (journal db ++ [(SqlSelectKey p t, [v])])%list /\
  journal (snd (_contains t p v db')) = (journal db' ++ [(SqlSelectKey p t, [v])])%list.
Proof.
  unfold _contains, lru_hit.
  destruct (lru_take ckey_eqb (t, p, v) (contains_cache db)) as [[b r]|] eqn:Ht;
    [discriminate|].
  pose proof (contains_query_cache t p v db) as Hc.
  assert (forall d : DB S,
            journal (snd (_contains_query t p v d))
            = (journal d ++ [(SqlSelectKey p t, [v])])%list) as Hq.
  { intros d. unfold _contains_query. rewrite bind_run.
    pose proof (conn_execute_journal (SqlSelectKey p t) [v] d) as Hj.
    destruct (conn_execute (SqlSelectKey p t) [v] d) as [[cur|e'] d1]; exact Hj. }
  pose proof (Hq db) as Hj.
  destruct (_contains_query t p v db) as [[b|e'] db1]; [discriminate|].
  intros [= _ <-]. simpl in Hc, Hj. split; [exact Hc|]. split; [exact Hj|].
  rewrite Hc, Ht. pose proof (Hq db1) as Hj1.
  destruct (_contains_query t p v db1) as [[b|e''] db2]; exact Hj1.
Qed.

(** ** Instances of the further properties *)

Lemma table_name_of_camel_case_witness :
  _table_name (TNamedTuple (concat_words ["Math"; "Genealogy"; "Associated"; "Link"]) [])
  = "math_genealogy_associated_link".
Proof.
  apply (table_name_of_camel_case ["Math"; "Genealogy"; "Associated"; "Link"] []).
  repeat constructor.
Defined.




Lemma convert_sql_result_value_lenient_witness :
  convert_sql_result_value reject_iso reject_iso (PStr "1998") TInt = Ret (PStr "1998").
Proof. apply convert_sql_result_value_lenient; discriminate. Defined.

Lemma convert_sql_result_value_rejects_non_string_witness :
  convert_sql_result_value reject_iso reject_iso PNone TDate = Raise TypeError.
Proof.
  apply convert_sql_result_value_rejects_non_string;
    [now left | reflexivity | discriminate].
Defined.

Lemma insert_or_update_within_capacity_witness :
  within_capacity fresh_db /\
  within_capacity (snd (insert_or_update schema_registry mit_in_us true fresh_db)).
Proof.
  assert (within_capacity fresh_db) as Hd by (vm_compute; discriminate).
  split; [exact Hd|].
  exact (insert_or_update_within_capacity schema_registry mit_in_us true fresh_db Hd).
Defined.

Lemma get_returns_row_as_record_witness :
  get tag_registry reject_iso reject_iso Tag (PInt 1) (open_db tag_store)
  = (Ret (Some (PTuple Tag [PInt 1])),
     snd (conn_execute (SqlSelectRow ["tag_id"] "tag" (Some "tag_id")) [PInt 1]
            (open_db tag_store))).
Proof.
  apply (get_returns_row_as_record tag_registry reject_iso reject_iso "Tag"
           [("tag_id", TInt)] (PInt 1) (open_db tag_store) _ (Some "tag_id")
           {| lastrowid := PNone; description := ["tag_id"]; fetchone := Some [PInt 1] |}
           [PInt 1] [PInt 1] ∅).
  - vm_compute. reflexivity.
  - vm_compute. reflexivity.
  - reflexivity.
  - reflexivity.
  - reflexivity.
  - repeat constructor. set_solver.
  - vm_compute. reflexivity.
  - intros n _. set_solver.
  - reflexivity.
Defined.


Lemma insert_or_update_existing_key_updates_witness :
  let db := open_db store_with_france in
  let france_3 := PTuple Country [PInt 3; PStr "France"] in
  fst (insert_or_update schema_registry france_3 true db) = Ret (PInt 3) /\
  exists cols vals,
    last (journal (snd (insert_or_update schema_registry france_3 true db)))
    = Some (SqlUpdate "country" cols "country_id", (vals ++ [PInt 3])%list) /\
    length vals = length cols.
Proof.
  cbv zeta. split; [vm_compute; reflexivity|].
  apply (insert_or_update_existing_key_updates schema_registry Country
           [PInt 3; PStr "France"] "country_id" ["country_id"; "country_name"]
           (PInt 3) (PInt 3) (open_db store_with_france)
           (snd (_contains "country" "country_id" (PInt 3) (open_db store_with_france)))).
  - vm_compute. reflexivity.
  - reflexivity.
  - reflexivity.
  - reflexivity.
  - vm_compute. reflexivity.
  - vm_compute. reflexivity.
Defined.

Lemma insert_or_update_unchecked_inserts_key_witness :
  exists pks db2 cur,
    persist_all schema_registry false [] fresh_db = (Ret pks, db2) /\
    execute (conn db2) (SqlInsert "country" ["country_name"; "country_id"])
      ([PStr "France"; PInt 7] ++ pks)%list
    = (Ret cur, conn (snd (insert_or_update schema_registry france_7 false fresh_db))) /\
    journal (snd (insert_or_update schema_registry france_7 false fresh_db))
    = (journal db2 ++ [(SqlInsert "country" ["country_name"; "country_id"],
                        ([PStr "France"; PInt 7] ++ pks)%list)])%list /\
    fst (insert_or_update schema_registry france_7 false fresh_db) = Ret (lastrowid cur).
Proof.
  destruct (insert_or_update_unchecked_inserts_key schema_registry Country
              [PInt 7; PStr "France"] "country_id" ["country_id"; "country_name"]
              (PInt 7) (PInt 7) fresh_db
              (snd (insert_or_update schema_registry france_7 false fresh_db)))
    as [pks [db2 [cur [Hp [Hex [Hj Hk]]]]]];
    try reflexivity; try (vm_compute; reflexivity).
  exists pks, db2, cur. split; [exact Hp|]. split; [exact Hex|]. split; [exact Hj|].
  rewrite <- Hk. vm_compute. reflexivity.
Defined.

Lemma schema_classes_without_key_not_persisted_witness :
  insert_or_update schema_py_registry
    (PTuple MathGenealogyAssociatedLink [PInt 7; PNone; PStr "MacTutor"]) true fresh_db
  = (Raise TypeError, fresh_db).
Proof.
  apply (schema_classes_without_key_not_persisted MathGenealogyAssociatedLink
           [PInt 7; PNone; PStr "MacTutor"] true fresh_db);
    [now right | reflexivity].
Defined.

Lemma contains_error_not_remembered_witness :
  let db := open_db (∅ : MemStore.t) in
  let db' := snd (_contains "country" "country_id" (PInt 3) db) in
  is_ret (fst (_contains "country" "country_id" (PInt 3) db)) = false /\
  contains_cache db' = contains_cache db /\
  journal db' = (journal db ++ [(SqlSelectKey "country_id" "country", [PInt 3])])%list /\
  journal (snd (_contains "country" "country_id" (PInt 3) db'))
  = (journal db' ++ [(SqlSelectKey "country_id" "country", [PInt 3])])%list.
Proof.
  cbv zeta. split; [vm_compute; reflexivity|].
  apply (contains_error_not_remembered "country" "country_id" (PInt 3)
           (StoreError "no such table") (open_db (∅ : MemStore.t))).
  vm_compute. reflexivity.
Defined.

Lemma persist_writes_dependencies_first_witness :
  exists (u : bool) pcs pvs db1 pks db2,
    decide_update "university" "university_id" (PInt 1) true fresh_db
    = (Ret (Some u, pcs, pvs), db1) /\
    persist_all schema_registry true [PTuple Country [PInt 3; PStr "US"]] db1
    = (Ret pks, db2) /\
    journal (snd (insert_or_update schema_registry mit_in_us true fresh_db))
    = (journal db2
       ++ [(if u then SqlUpdate "university" (["university_name"] ++ pcs ++ ["country_id"])
                        "university_id"
            else SqlInsert "university" (["university_name"] ++ pcs ++ ["country_id"]),
            if u then ([PStr "MIT"] ++ pvs ++ pks) ++ [PInt 1]
            else [PStr "MIT"] ++ pvs ++ pks)])%list.
Proof.
  apply (persist_writes_dependencies_first schema_registry University
           [PInt 1; PStr "MIT"; PTuple Country [PInt 3; PStr "US"]]
           "university_id" ["university_id"; "university_name"; "country"]
           (PInt 1) true (PInt 1) fresh_db
           (snd (insert_or_update schema_registry mit_in_us true fresh_db)));
    try reflexivity; vm_compute; reflexivity.
Defined.

Lemma persist_again_inserts_again_witness :
  let ins := (SqlInsert "web_source" ["base_url"], [PStr "genealogy.math.ndsu.nodak.edu"]) in
  let db1 := snd (_contains "web_source" "web_source_id" (PInt 1) fresh_db) in
  let db' := snd (insert_or_update schema_registry web_source_1 true fresh_db) in
  let db'' := snd (insert_or_update schema_registry web_source_1 true db') in
  journal db' = (journal db1 ++ [ins])%list /\
  journal db'' = (journal db' ++ [ins])%list.
Proof.
  apply (persist_again_inserts_again schema_registry WebSource
           [PInt 1; PStr "genealogy.math.ndsu.nodak.edu"] "web_source_id"
           ["web_source_id"; "base_url"] (PInt 1) fresh_db
           (snd (_contains "web_source" "web_source_id" (PInt 1) fresh_db)));
    try reflexivity; vm_compute; reflexivity.
Defined.
